(** * ci/simulator.py: the CI pipeline simulator, embedded and verified

    A shallow embedding of [src/ci/simulator.py] (class [CIPipeline] and the
    run section of [main]) together with the properties its specification
    states about it.

    Conventions of the embedding.
    - A Python [str] is a Rocq [string]; one [ascii] stands for one character,
      so slicing and [len] count characters and [sorted] compares character
      codes, as Python does.
    - An [Optional[str]] argument is an [option string]; Python truthiness
      ([if role:]) is [truthy].
    - [pathlib] paths are [PurePath.t], the file system is a tree of [FS.node],
      and the parts of the operating system the code talks to (process
      execution, the wall clock, thread scheduling) are variables of the
      sections that need them.
    - Effectful methods live in the monad [M]: a [World] is threaded through
      and a Python exception is the result [Raise].
    - Console output ([print], [colorize]) is not modelled. *)

From Stdlib Require Import String Ascii ZArith List.
From Stdlib Require Import Floats.PrimFloat.
From stdpp Require Import base option list strings sorting gmap pretty.

Open Scope string_scope.
Set Warnings "-register-all".

(** ** Python strings *)

(** The characters that a Rocq string literal cannot hold. *)
Definition nl : string := String (ascii_of_nat 10) "".
Definition dquote : string := String (ascii_of_nat 34) "".

(** [s[:n]] *)
Fixpoint str_take (n : nat) (s : string) : string :=
  match n, s with
  | S n', String c s' => String c (str_take n' s')
  | _, _ => ""
  end.

(** [s.replace(a, b)] for one-character [a] and [b]. *)
Fixpoint str_replace (a b : ascii) (s : string) : string :=
  match s with
  | "" => ""
  | String c s' => String (if Ascii.eqb c a then b else c) (str_replace a b s')
  end.

(** [s.split(sep)] for a one-character separator. *)
Fixpoint str_split (sep : ascii) (s : string) : list string :=
  match s with
  | "" => [""]
  | String c s' =>
      if Ascii.eqb c sep then "" :: str_split sep s'
      else match str_split sep s' with
           | [] => [String c ""]
           | w :: ws => String c w :: ws
           end
  end.

(** [sep.join(l)] *)
Definition str_join (sep : string) (l : list string) : string :=
  String.concat sep l.

(** Truthiness of an [Optional[str]]: [None] and the empty string are falsy. *)
Definition truthy (o : option string) : bool :=
  match o with
  | Some s => negb (String.eqb s "")
  | None => false
  end.

(** [o or d] *)
Definition str_or (o : option string) (d : string) : string :=
  match o with
  | Some s => if String.eqb s "" then d else s
  | None => d
  end.

Definition slash : ascii := "/"%char.

(** ** pathlib: pure POSIX paths *)
Module PurePath.

Record t := mk { anchored : bool; parts : list string }.

(** The parts a string contributes: empty and ["."] components vanish. *)
Definition segments (s : string) : list string :=
  filter (λ p, p ≠ "" ∧ p ≠ ".") (str_split slash s).

(** [p / s]: an absolute right operand replaces the left one. *)
Definition div (p : t) (s : string) : t :=
  if String.prefix "/" s
  then mk true (segments s)
  else mk (anchored p) (parts p ++ segments s).

(** [str(p)] *)
Definition str (p : t) : string :=
  match anchored p, parts p with
  | false, [] => "."
  | true, ps => "/" +:+ str_join "/" ps
  | false, ps => str_join "/" ps
  end.

End PurePath.

Abbreviation Path := PurePath.t.
Infix "//" := PurePath.div (at level 40, left associativity).

(** ** The file system *)
Module FS.

Inductive node : Type :=
| File
| Dir (entries : list (string * node)).

Inductive errno := ENOENT | ENOTDIR.

Definition is_dir (n : node) : bool :=
  match n with Dir _ => true | File => false end.

Fixpoint entry (name : string) (es : list (string * node)) : option node :=
  match es with
  | [] => None
  | (k, n) :: es' => if String.eqb k name then Some n else entry name es'
  end.

(** Path resolution from [cur], whose ancestors are [anc] (nearest first).
    [".."] climbs, and stays at the root when there is no ancestor. *)
Fixpoint walk (anc : list node) (cur : node) (ps : list string)
  : errno + node :=
  match ps with
  | [] => inr cur
  | p :: ps' =>
      match cur with
      | File => inl ENOTDIR
      | Dir es =>
          if String.eqb p ".." then
            match anc with
            | [] => walk [] cur ps'
            | a :: anc' => walk anc' a ps'
            end
          else
            match entry p es with
            | None => inl ENOENT
            | Some n => walk (cur :: anc) n ps'
            end
      end
  end.

(** [os.stat]: a relative path is resolved from the working directory. *)
Definition stat (root : node) (cwd : list string) (p : Path) : errno + node :=
  walk [] root ((if PurePath.anchored p then [] else cwd) ++ PurePath.parts p).

(** [Path.exists()] *)
Definition exists_ (root : node) (cwd : list string) (p : Path) : bool :=
  match stat root cwd p with inr _ => true | inl _ => false end.

(** [(d / a / b).exists()] for a directory entry [d] already in hand. *)
Definition has (d : node) (ps : list string) : bool :=
  match walk [] d ps with inr _ => true | inl _ => false end.

(** A directory tree as a file system has it: in every directory the names
    are distinct, and no name is empty, ["."], [".."] or holds a slash. *)
Definition name_ok (s : string) : bool :=
  negb (String.eqb s "") && negb (String.eqb s ".") && negb (String.eqb s "..")
  && forallb (λ c, negb (Ascii.eqb c slash)) (list_ascii_of_string s).

Fixpoint wf (n : node) : bool :=
  match n with
  | File => true
  | Dir es =>
      bool_decide (NoDup es.*1)
      && forallb (λ e, name_ok e.1) es
      && (fix wfs (l : list (string * node)) : bool :=
            match l with
            | [] => true
            | (_, c) :: l' => wf c && wfs l'
            end) es
  end.

End FS.

Abbreviation node := FS.node.
Abbreviation File := FS.File.
Abbreviation Dir := FS.Dir.

(** ** Exceptions, the world and the monad *)

Inductive PyExc : Type :=
| FileNotFoundError
| NotADirectoryError
| ValueError (msg : string).

Inductive Res (A : Type) : Type :=
| Ok (a : A)
| Raise (e : PyExc).
Arguments Ok {A} a.
Arguments Raise {A} e.

(** One call of [subprocess.run(command, shell=True, cwd=..., env=...,
    capture_output=True, text=True, timeout=600)]. *)
Record Spawn := mkSpawn {
  sp_command : string;
  sp_cwd : Path;
  sp_env : gmap string string;
  sp_timeout : Z                    (* seconds *)
}.

Record World := mkWorld {
  fs : node;                        (* the directory tree, from [/] *)
  cwd : list string;                (* the working directory of the process *)
  environ : gmap string string;     (* [os.environ] *)
  ticks : nat;                      (* clock readings taken so far *)
  spawned : list Spawn              (* the processes started so far *)
}.

Definition M (A : Type) : Type := World → Res A * World.

Definition ret {A} (a : A) : M A := λ w, (Ok a, w).

Definition bind {A B} (k : A → M B) (m : M A) : M B :=
  λ w, match m w with
       | (Ok a, w') => k a w'
       | (Raise e, w') => (Raise e, w')
       end.

#[global] Instance M_ret : MRet M := @ret.
#[global] Instance M_bind : MBind M := @bind.

Definition raise {A} (e : PyExc) : M A := λ w, (Raise e, w).

(** The world after one more reading of the clock. *)
Definition tick (w : World) : World :=
  mkWorld (fs w) (cwd w) (environ w) (S (ticks w)) (spawned w).

(** [for x in l: results.append(f(x))] *)
Fixpoint for_each {A B} (f : A → M B) (l : list A) : M (list B) :=
  match l with
  | [] => mret []
  | x :: l' => y ← f x; ys ← for_each f l'; mret (y :: ys)
  end.

(** ** class CIPipeline *)

Record CIPipeline := mkCIPipeline {
  project_root : Path;
  roles_dir : Path;
  verbose : bool;
  dry_run : bool
}.

(** [__init__]: [roles_dir = project_root / "roles"]. *)
Definition CIPipeline_init (root : Path) (v d : bool) : CIPipeline :=
  mkCIPipeline root (root // "roles") v d.

(** *** discover_roles *)

(** [Path.iterdir()]: the entries of a directory, in the order the operating
    system lists them; raises when the path is missing or not a directory. *)
Definition iterdir (p : Path) : M (list (string * node)) :=
  λ w, match FS.stat (fs w) (cwd w) p with
       | inr (Dir es) => (Ok es, w)
       | inr File => (Raise NotADirectoryError, w)
       | inl FS.ENOENT => (Raise FileNotFoundError, w)
       | inl FS.ENOTDIR => (Raise NotADirectoryError, w)
       end.

(** [(d / "molecule" / "default").exists()] *)
Definition has_marker (d : node) : bool := FS.has d ["molecule"; "default"].

(** [category.name.startswith('.')] *)
Definition hidden (name : string) : bool := String.prefix "." name.

(** The innermost loop, over the entries of a role without marker. *)
Definition subrole_ids (cname rname : string) (subs : list (string * node))
  : list string :=
  '(sname, sub) ← subs;
  if FS.is_dir sub then
    if has_marker sub then [cname +:+ "/" +:+ rname +:+ "/" +:+ sname] else []
  else [].

(** The loop over the entries of a category. *)
Definition role_ids (cname : string) (rs : list (string * node)) : list string :=
  '(rname, role) ← rs;
  match role with
  | Dir subs =>
      if has_marker role then [cname +:+ "/" +:+ rname]
      else subrole_ids cname rname subs
  | File => []
  end.

(** The outer loop, over the entries of [roles_dir]. *)
Definition category_ids (cats : list (string * node)) : list string :=
  '(cname, category) ← cats;
  match category with
  | Dir rs => if negb (hidden cname) then role_ids cname rs else []
  | File => []
  end.

(** [sorted(roles)] *)
Definition sorted (l : list string) : list string := merge_sort String.le l.

Definition discover_roles (self : CIPipeline) : M (list string) :=
  cats ← iterdir (roles_dir self);
  mret (sorted (category_ids cats)).

(** ** The result model *)

Inductive StageStatus := PENDING | RUNNING | PASSED | FAILED | SKIPPED.

(** [StageStatus.value] *)
Definition status_value (st : StageStatus) : string :=
  match st with
  | PENDING => "pending"
  | RUNNING => "running"
  | PASSED => "passed"
  | FAILED => "failed"
  | SKIPPED => "skipped"
  end.

#[global] Instance StageStatus_eq_dec : EqDecision StageStatus.
Proof. solve_decision. Defined.

Record StageResult := mkStageResult {
  name : string;
  status : StageStatus;
  duration : float;
  output : string;
  error : string;
  command : string;
  role : string
}.

Record PipelineResult := mkPipelineResult {
  start_time : string;
  end_time : string;
  total_duration : float;
  stages : list StageResult;
  passed : nat;
  failed : nat;
  skipped : nat;
  overall_status : string
}.

(** [PipelineResult(start_time=...)]: every other field at its default. *)
Definition PipelineResult_new (start : string) : PipelineResult :=
  mkPipelineResult start "" 0%float [] 0 0 0 "pending".

(** *** print_summary *)

(** [sum(1 for r in l if r.status == st)] *)
Definition count_status (st : StageStatus) (l : list StageResult) : nat :=
  sum_list ((λ _, 1) <$> filter (λ r, status r = st) l).

(** The counts and the verdict that [print_summary] stores in [self.results]. *)
Definition print_summary (res : PipelineResult) : PipelineResult :=
  let passed := count_status PASSED (stages res) in
  let failed := count_status FAILED (stages res) in
  let skipped := count_status SKIPPED (stages res) in
  mkPipelineResult (start_time res) (end_time res) (total_duration res)
    (stages res) passed failed skipped
    (if (failed =? 0)%nat then "passed" else "failed").

(** *** generate_report *)

(** The values [json.dump] writes; an object keeps its keys in order. *)
Inductive json : Type :=
| JInt (z : Z)
| JFloat (f : float)
| JStr (s : string)
| JArr (items : list json)
| JObj (fields : list (string * json)).

Definition json_fields (j : json) : list (string * json) :=
  match j with JObj fields => fields | _ => [] end.

Fixpoint json_field (key : string) (fields : list (string * json)) : option json :=
  match fields with
  | [] => None
  | (k, v) :: fields' => if String.eqb k key then Some v else json_field key fields'
  end.

(** One element of the [stages] array of the json report. *)
Definition stage_data (s : StageResult) : json :=
  JObj [("name", JStr (name s));
        ("status", JStr (status_value (status s)));
        ("duration", JFloat (duration s));
        ("role", JStr (role s));
        ("command", JStr (command s));
        ("output", JStr (if String.eqb (output s) "" then "" else str_take 500 (output s)));
        ("error", JStr (if String.eqb (error s) "" then "" else str_take 500 (error s)))].

(** [report_data], the document of the [json] format. *)
Definition report_data (res : PipelineResult) : json :=
  JObj [("start_time", JStr (start_time res));
        ("end_time", JStr (end_time res));
        ("total_duration", JFloat (total_duration res));
        ("passed", JInt (Z.of_nat (passed res)));
        ("failed", JInt (Z.of_nat (failed res)));
        ("skipped", JInt (Z.of_nat (skipped res)));
        ("overall_status", JStr (overall_status res));
        ("stages", JArr (stage_data <$> stages res))].

Section Junit.

(** [f"{x:.2f}"] *)
Variable format_2f : float → string.

(** The text around the error of a failed stage. *)
Definition failure_open : string :=
  "    <failure message=" +:+ dquote +:+ "Stage failed" +:+ dquote +:+ ">".
Definition failure_close : string := "</failure>" +:+ nl.

(** What one turn of the loop appends to [xml]. *)
Definition junit_testcase (stage : StageResult) : string :=
  ("  <testcase name=" +:+ dquote +:+ name stage +:+ dquote
     +:+ " time=" +:+ dquote +:+ format_2f (duration stage) +:+ dquote
     +:+ ">" +:+ nl)
  +:+ match status stage with
      | FAILED => failure_open +:+ error stage +:+ failure_close
      | SKIPPED => "    <skipped/>" +:+ nl
      | _ => ""
      end
  +:+ "  </testcase>" +:+ nl.

Definition junit_header (res : PipelineResult) : string :=
  "<?xml version=" +:+ dquote +:+ "1.0" +:+ dquote
    +:+ " encoding=" +:+ dquote +:+ "UTF-8" +:+ dquote +:+ "?>" +:+ nl
    +:+ "<testsuite name=" +:+ dquote +:+ "ansible-molecule-pipeline" +:+ dquote
    +:+ " tests=" +:+ dquote +:+ pretty (length (stages res)) +:+ dquote
    +:+ " failures=" +:+ dquote +:+ pretty (failed res) +:+ dquote
    +:+ " time=" +:+ dquote +:+ format_2f (total_duration res) +:+ dquote
    +:+ ">" +:+ nl.

Definition _generate_junit_xml (res : PipelineResult) : string :=
  let xml := junit_header res in
  let xml := fold_left (λ xml stage, xml +:+ junit_testcase stage) (stages res) xml in
  xml +:+ "</testsuite>" +:+ nl.

End Junit.

(** ** Commands and stage runners *)

(** How [subprocess.run] can end: normally, by the timeout, or by any other
    exception [e] (a subclass of [Exception]), of which only [str(e)] is
    used. *)
Inductive ProcOutcome : Type :=
| Completed (returncode : Z) (stdout stderr : string)
| TimeoutExpired
| OtherException (descr : string).

Section Pipeline.

(** What a started process does: how the call ends and the file system it
    leaves behind. *)
Variable os_exec : Spawn → node → ProcOutcome * node.
(** The successive readings of the wall clock. *)
Variable wall : nat → float.
(** [datetime.isoformat] of a clock reading. *)
Variable isoformat : float → string.
(** The order in which the tasks submitted to a thread pool complete. *)
Variable completion : World → list string → list string.

Variable self : CIPipeline.

(** [time.time()] *)
Definition time_time : M float :=
  λ w, (Ok (wall (ticks w)), tick w).

(** [datetime.now().isoformat()] *)
Definition datetime_now_isoformat : M string :=
  t ← time_time; mret (isoformat t).

(** [Path.exists()] *)
Definition path_exists (p : Path) : M bool :=
  λ w, (Ok (FS.exists_ (fs w) (cwd w) p), w).

(** [subprocess.run]: the process is recorded as started, and the world goes
    on with the file system it left. *)
Definition subprocess_run (sp : Spawn) (w : World) : ProcOutcome * World :=
  let '(o, fs') := os_exec sp (fs w) in
  (o, mkWorld fs' (cwd w) (environ w) (ticks w) (spawned w ++ [sp])).

(** The process [run_command] starts: the overlay [env] is merged onto a
    copy of [os.environ], and [cwd or self.project_root] is where it runs. *)
Definition spawn_of (cmd : string) (cwd_arg : option Path)
    (env : option (gmap string string)) (w : World) : Spawn :=
  let full_env :=
    match env with
    | Some e => if bool_decide (e = ∅) then environ w else e ∪ environ w
    | None => environ w
    end in
  mkSpawn cmd (default (project_root self) cwd_arg) full_env 600.

Definition run_command (cmd : string) (cwd_arg : option Path)
    (env : option (gmap string string)) : M (Z * string * string) :=
  if dry_run self then
    mret (0%Z, "[DRY RUN] Would execute: " +:+ cmd, "")
  else λ w,
    match subprocess_run (spawn_of cmd cwd_arg env w) w with
    | (Completed returncode stdout stderr, w') =>
        (Ok (returncode, stdout, stderr), w')
    | (TimeoutExpired, w') =>
        (Ok (1%Z, "", "Command timed out after 600 seconds"), w')
    | (OtherException e, w') =>
        (Ok (1%Z, "", e), w')
    end.

(** [self.roles_dir / role.replace('/', '/')] *)
Definition role_path (r : string) : Path :=
  roles_dir self // str_replace slash slash r.

(** The two commands of [run_lint]. *)
Definition yamllint_cmd (role_arg : option string) : string :=
  if truthy role_arg
  then "yamllint -c .yamllint.yml " +:+ PurePath.str (role_path (default "" role_arg))
  else "yamllint -c .yamllint.yml roles/".

Definition ansible_lint_cmd (role_arg : option string) : string :=
  if truthy role_arg
  then "ansible-lint " +:+ PurePath.str (role_path (default "" role_arg))
  else "ansible-lint roles/".

(** What [run_lint] appends to [stdout] before the second linter's output. *)
Definition lint_banner : string :=
  nl +:+ nl +:+ "Ansible-lint output:" +:+ nl.

Definition run_lint (role_arg : option string) : M StageResult :=
  start ← time_time;
  let name :=
    if truthy role_arg then "lint:" +:+ default "" role_arg else "lint:all" in
  let cmd := yamllint_cmd role_arg in
  '(returncode, stdout, stderr) ← run_command cmd None None;
  let status := if (returncode =? 0)%Z then PASSED else FAILED in
  let lint_cmd := ansible_lint_cmd role_arg in
  '(lint_rc, lint_out, lint_err) ← run_command lint_cmd None None;
  let '(status, stdout, stderr) :=
    if negb (lint_rc =? 0)%Z
    then (FAILED, stdout +:+ lint_banner +:+ lint_out, stderr +:+ lint_err)
    else (status, stdout, stderr) in
  stop ← time_time;
  mret (mkStageResult name status (stop - start)%float stdout stderr cmd
          (str_or role_arg "all")).

(** [role_path / "molecule" / "default" / "converge.yml"] *)
Definition converge_path (r : string) : Path :=
  role_path r // "molecule" // "default" // "converge.yml".

Definition run_syntax (role_arg : option string) : M StageResult :=
  let r := default "" role_arg in
  start ← time_time;
  let name := if truthy role_arg then "syntax:" +:+ r else "syntax:all" in
  let finish (cmd : string) : M StageResult :=
    '(returncode, stdout, stderr) ← run_command cmd None None;
    let status := if (returncode =? 0)%Z then PASSED else FAILED in
    stop ← time_time;
    mret (mkStageResult name status (stop - start)%float stdout stderr cmd
           (str_or role_arg "all")) in
  if truthy role_arg then
    let converge := converge_path r in
    found ← path_exists converge;
    if found : bool then
      finish ("ansible-playbook --syntax-check " +:+ PurePath.str converge)
    else
      mret (mkStageResult name SKIPPED 0%float "No converge.yml found" "" "" r)
  else
    finish "find playbooks -name '*.yml' -exec ansible-playbook --syntax-check {} \;".

Definition run_molecule (r : string) (scenario : string) : M StageResult :=
  start ← time_time;
  let name := "molecule:" +:+ r +:+ ":" +:+ scenario in
  let cmd := "molecule test -s " +:+ scenario in
  '(returncode, stdout, stderr) ← run_command cmd (Some (role_path r)) None;
  let status := if (returncode =? 0)%Z then PASSED else FAILED in
  stop ← time_time;
  mret (mkStageResult name status (stop - start)%float stdout stderr cmd r).

(** ** The scheduler *)

(** Every submitted task runs, whatever the others do. *)
Fixpoint run_tasks {A} (ts : list (M A)) (w : World) : list (Res A) * World :=
  match ts with
  | [] => ([], w)
  | t :: ts' =>
      let '(r, w1) := t w in
      let '(rs, w2) := run_tasks ts' w1 in
      (r :: rs, w2)
  end.

(** [for future in as_completed(futures): results.append(future.result())]:
    the first future that holds an exception re-raises it. *)
Fixpoint gather {A} (rs : list (Res A)) : Res (list A) :=
  match rs with
  | [] => Ok []
  | Ok a :: rs' =>
      match gather rs' with
      | Ok l => Ok (a :: l)
      | Raise e => Raise e
      end
  | Raise e :: _ => Raise e
  end.

(** [with ThreadPoolExecutor(max_workers=parallel) as executor: ...].
    The constructor refuses a pool without workers. The tasks are taken to
    run one after the other in the order they complete in; leaving the
    [with] block waits for all of them. *)
Definition thread_pool (parallel : Z) (task : string → M StageResult)
    (roles : list string) : M (list StageResult) :=
  if (parallel <=? 0)%Z
  then raise (ValueError "max_workers must be greater than 0")
  else λ w,
    let '(rs, w') := run_tasks (task <$> completion w roles) w in
    (gather rs, w').

(** The three single-stage branches of [run_stage]. *)
Definition run_one_stage (stage : string) (role_arg : option string)
    (parallel : Z) : M (list StageResult) :=
  if String.eqb stage "lint" then
    if truthy role_arg then
      r ← run_lint role_arg; mret [r]
    else
      roles ← discover_roles self;
      thread_pool parallel (λ r, run_lint (Some r)) roles
  else if String.eqb stage "syntax" then
    if truthy role_arg then
      r ← run_syntax role_arg; mret [r]
    else
      roles ← discover_roles self;
      thread_pool parallel (λ r, run_syntax (Some r)) roles
  else if String.eqb stage "molecule" then
    if truthy role_arg then
      r ← run_molecule (default "" role_arg) "default"; mret [r]
    else
      roles ← discover_roles self;
      for_each (λ r, run_molecule r "default") roles
  else mret [].

(** [any(r.status == StageStatus.FAILED for r in stage_results)] *)
Definition any_failed (l : list StageResult) : bool :=
  existsb (λ r, bool_decide (status r = FAILED)) l.

(** The loop of the [all] branch; [results] is the list built so far. *)
Fixpoint all_stages (todo : list string) (role_arg : option string)
    (parallel : Z) (results : list StageResult) : M (list StageResult) :=
  match todo with
  | [] => mret results
  | s :: todo' =>
      stage_results ← run_one_stage s role_arg parallel;
      let results := (results ++ stage_results)%list in
      if any_failed stage_results then mret results
      else all_stages todo' role_arg parallel results
  end.

(** [run_stage]. Its recursive calls, made from the [all] branch, name one
    of the three single stages and so never reach that branch again: they
    are calls of [run_one_stage]. *)
Definition run_stage (stage : string) (role_arg : option string)
    (parallel : Z) : M (list StageResult) :=
  if String.eqb stage "all"
  then all_stages ["lint"; "syntax"; "molecule"] role_arg parallel []
  else run_one_stage stage role_arg parallel.

(** *** main: the run, from [run_stage] to the exit code *)
Definition main_run (results : PipelineResult) (stage : string)
    (role_arg : option string) (parallel : Z) : M (PipelineResult * Z) :=
  start ← time_time;
  stage_results ← run_stage stage role_arg parallel;
  finished ← datetime_now_isoformat;
  stop ← time_time;
  let results :=
    print_summary
      (mkPipelineResult (start_time results) finished
         (stop - start)%float stage_results
         (passed results) (failed results) (skipped results)
         (overall_status results)) in
  mret (results, if (failed results =? 0)%nat then 0%Z else 1%Z).

End Pipeline.

(** ** Concrete inputs, for the examples below *)

(** [/srv/repo/roles] holds the category [net], whose unit [ssh] has no
    marker, while its subunit [hardened] has one. *)
Definition net_roles : list (string * node) :=
  [("net", Dir [("ssh", Dir [("hardened", Dir [("molecule", Dir [("default", Dir [])])]);
                            ("tasks", Dir [("main.yml", File)])])])].

Definition demo_fs : node := Dir [("srv", Dir [("repo", Dir [("roles", Dir net_roles)])])].

(** The same repository without its [roles] directory. *)
Definition bare_fs : node := Dir [("srv", Dir [("repo", Dir [("ci", Dir [])])])].

Definition demo_root : Path := PurePath.mk true ["srv"; "repo"].

Definition demo_self (dry : bool) : CIPipeline := CIPipeline_init demo_root false dry.

Definition demo_world (tree : node) : World := mkWorld tree ["srv"; "repo"] ∅ 0 [].

Definition demo_wall (n : nat) : float := Nat.iter n (λ t, t + 0.5)%float 100%float.

(** Every command hangs until the timeout. *)
Definition exec_hangs (sp : Spawn) (tree : node) : ProcOutcome * node :=
  (TimeoutExpired, tree).

(** No command can be started. *)
Definition exec_broken (sp : Spawn) (tree : node) : ProcOutcome * node :=
  (OtherException "[Errno 2] No such file or directory: '/srv/repo'", tree).

(** [yamllint] finds a problem, [ansible-lint] finds none, anything else
    succeeds silently. *)
Definition exec_yamllint_fails (sp : Spawn) (tree : node) : ProcOutcome * node :=
  (if String.prefix "yamllint" (sp_command sp) then Completed 1 "Y" "E1"
   else if String.prefix "ansible-lint" (sp_command sp) then Completed 0 "A" "E2"
   else Completed 0 "" "",
   tree).

(** The repository with a [roles] directory in which nothing is marked. *)
Definition unmarked_fs : node :=
  Dir [("srv", Dir [("repo", Dir [("roles",
         Dir [("net", Dir [("ssh", Dir [("tasks", Dir [("main.yml", File)])])]);
              ("README.md", File)])])])].

(** A stage whose error text is one character longer than the limit. *)
Definition str_repeat (c : ascii) (n : nat) : string := Nat.iter n (String c) "".
Definition long_error : string := str_repeat "x" 501.
Definition demo_format (x : float) : string := "0.00".
Definition failing_run : PipelineResult :=
  print_summary
    (mkPipelineResult "2024-01-01T00:00:00" "2024-01-01T00:00:01" 0
       [mkStageResult "lint:all" FAILED 0 "" long_error
          "yamllint -c .yamllint.yml roles/" "all"]
       0 0 0 "pending").

(** A live run over the demonstration tree, in which [yamllint] fails. *)
Definition demo_run : Res (PipelineResult * Z) * World :=
  main_run exec_yamllint_fails demo_wall (λ _, "2024-01-01T00:00:00")
    (λ _ l, l) (demo_self false) (PipelineResult_new "2024-01-01T00:00:00")
    "all" None 4 (demo_world demo_fs).

Definition demo_result : PipelineResult :=
  match demo_run.1 with
  | Ok (res, _) => res
  | Raise _ => PipelineResult_new ""
  end.

(** ** Vocabulary of the properties *)

(** The command [run_syntax] checks with, when it runs one. *)
Definition syntax_cmd (self : CIPipeline) (role_arg : option string) : string :=
  if truthy role_arg
  then "ansible-playbook --syntax-check "
         +:+ PurePath.str (converge_path self (default "" role_arg))
  else "find playbooks -name '*.yml' -exec ansible-playbook --syntax-check {} \;".

(** Whether [run_syntax] gives up before running anything. *)
Definition syntax_skips (self : CIPipeline) (role_arg : option string)
    (w : World) : bool :=
  truthy role_arg
  && negb (FS.exists_ (fs w) (cwd w) (converge_path self (default "" role_arg))).

(** The statuses a finished stage can have. *)
Definition terminal (st : StageStatus) : Prop :=
  st = PASSED ∨ st = FAILED ∨ st = SKIPPED.

(** A computation that, when it returns, returns something in [P]. *)
Definition returns_in {A} (P : A → Prop) (m : M A) : Prop :=
  ∀ w a w', m w = (Ok a, w') → P a.

(** [x] is recorded as [category/unit]: a unit with the marker. *)
Definition unit_recorded (cats : list (string * node)) (x : string) : Prop :=
  ∃ cname rs rname role,
    (cname, Dir rs) ∈ cats ∧ hidden cname = false
    ∧ (rname, role) ∈ rs ∧ FS.is_dir role = true ∧ has_marker role = true
    ∧ x = cname +:+ "/" +:+ rname.

(** [x] is recorded as [category/unit/subunit]: a subunit with the marker in
    a unit without. *)
Definition subunit_recorded (cats : list (string * node)) (x : string) : Prop :=
  ∃ cname rs rname subs sname sub,
    (cname, Dir rs) ∈ cats ∧ hidden cname = false
    ∧ (rname, Dir subs) ∈ rs ∧ has_marker (Dir subs) = false
    ∧ (sname, sub) ∈ subs ∧ FS.is_dir sub = true ∧ has_marker sub = true
    ∧ x = cname +:+ "/" +:+ rname +:+ "/" +:+ sname.

(** A string without a slash. *)
Definition slash_free (s : string) : Prop :=
  forallb (λ c, negb (Ascii.eqb c slash)) (list_ascii_of_string s) = true.

(** What follows a name inside an identifier: nothing, or a slash and more. *)
Definition tail_ok (t : string) : Prop := t = "" ∨ ∃ t', t = "/" +:+ t'.

(** The demonstration tree with a second category, and the same tree as the
    operating system might list it in another order. *)
Definition web_category : string * node :=
  ("web", Dir [("nginx", Dir [("molecule", Dir [("default", Dir []);
                                                 ("converge.yml", File)])]);
               ("apache", Dir [("molecule", Dir [("default",
                                  Dir [("converge.yml", File)])])])]).

Definition two_roles : list (string * node) := net_roles ++ [web_category].
Definition two_roles_listed_otherwise : list (string * node) :=
  web_category :: net_roles.

Definition two_fs : node :=
  Dir [("srv", Dir [("repo", Dir [("roles", Dir two_roles)])])].

(** A computation that relates by [R] the world it starts in to the world it
    ends in, whether it returns or raises. *)
Definition keeps {A} (R : World → World → Prop) (m : M A) : Prop :=
  ∀ w, R w (m w).2.

(** A computation that, when it raises, raises something in [E]. *)
Definition raises_in {A} (E : PyExc → Prop) (m : M A) : Prop :=
  ∀ w e w', m w = (Raise e, w') → E e.

(** The environment and the working directory are as before, the processes
    started before are still the first ones on record, and the clock has not
    been read fewer times. *)
Definition frame (w w' : World) : Prop :=
  environ w' = environ w ∧ cwd w' = cwd w
  ∧ spawned w `prefix_of` spawned w' ∧ (ticks w ≤ ticks w')%nat.

(** Nothing was started and the file system is as before. *)
Definition quiet (w w' : World) : Prop :=
  fs w' = fs w ∧ spawned w' = spawned w.

(** The exceptions [run_stage] can end with, for a given parallelism. *)
Definition stage_error (parallel : Z) (e : PyExc) : Prop :=
  e = FileNotFoundError ∨ e = NotADirectoryError
  ∨ (e = ValueError "max_workers must be greater than 0" ∧ (parallel ≤ 0)%Z).

(** [yamllint] and [ansible-lint] both find problems. *)
Definition exec_lint_fails (sp : Spawn) (tree : node) : ProcOutcome * node :=
  (if String.prefix "yamllint" (sp_command sp) then Completed 1 "Y" "E1"
   else if String.prefix "ansible-lint" (sp_command sp) then Completed 2 "A" "E2"
   else Completed 0 "" "",
   tree).

(** Every command succeeds silently. *)
Definition exec_succeeds (sp : Spawn) (tree : node) : ProcOutcome * node :=
  (Completed 0 "" "", tree).

(** A pool whose tasks complete in the reverse of the order of submission. *)
Definition last_first (w : World) (l : list string) : list string := reverse l.

(** A dry run of every stage over the tree with two categories. *)
Definition dry_demo_run : Res (PipelineResult * Z) * World :=
  main_run exec_hangs demo_wall (λ _, "2024-01-01T00:00:00") last_first
    (demo_self true) (PipelineResult_new "2024-01-01T00:00:00") "all" None 4
    (demo_world two_fs).

Definition dry_demo_result : PipelineResult :=
  match dry_demo_run.1 with
  | Ok (res, _) => res
  | Raise _ => PipelineResult_new ""
  end.

(** ** Properties *)

(** *** The command executor *)

Section CommandExecutor.

Variable os_exec : Spawn → node → ProcOutcome * node.
Variable self : CIPipeline.

Lemma run_command_dry cmd cwd_arg env w :
  dry_run self = true →
  run_command os_exec self cmd cwd_arg env w
  = (Ok (0%Z, "[DRY RUN] Would execute: " +:+ cmd, ""), w).
Proof. intros Hd. unfold run_command. by rewrite Hd. Qed.

(** Whatever the process does, [run_command] returns a triple. *)
Lemma run_command_returns cmd cwd_arg env w :
  ∃ t w', run_command os_exec self cmd cwd_arg env w = (Ok t, w').
Proof.
  unfold run_command. destruct (dry_run self); [by eexists _, _|].
  destruct (subprocess_run _ _ _) as [[rc out err| |e] w']; by eexists _, _.
Qed.

(** A live [run_command] starts exactly one process. *)
Lemma run_command_live cmd cwd_arg env w :
  dry_run self = false →
  ∃ t, run_command os_exec self cmd cwd_arg env w
       = (Ok t, mkWorld (os_exec (spawn_of self cmd cwd_arg env w) (fs w)).2
                  (cwd w) (environ w) (ticks w)
                  (spawned w ++ [spawn_of self cmd cwd_arg env w])).
Proof.
  intros Hd. unfold run_command, subprocess_run. rewrite Hd.
  destruct (os_exec _ _) as [[rc out err| |e] tree]; by eexists.
Qed.

End CommandExecutor.

(** C6. In dry-run mode [run_command] returns exit code 0, the text
    ["[DRY RUN] Would execute: "] followed by the command as stdout, and an
    empty stderr; the world is left as it was, so no process is started,
    whatever starting one would have done. *)
Theorem run_command_dry_run os_exec self cmd cwd_arg env w :
  dry_run self = true →
  run_command os_exec self cmd cwd_arg env w
  = (Ok (0%Z, "[DRY RUN] Would execute: " +:+ cmd, ""), w)
  ∧ spawned (run_command os_exec self cmd cwd_arg env w).2 = spawned w.
Proof.
  intros Hd. rewrite (run_command_dry os_exec self cmd cwd_arg env w Hd). done.
Qed.

Lemma run_command_dry_run_witness :
  run_command exec_hangs (demo_self true) "molecule test -s default" None None
    (demo_world demo_fs)
  = (Ok (0%Z, "[DRY RUN] Would execute: molecule test -s default", ""),
     demo_world demo_fs)
  ∧ spawned (run_command exec_hangs (demo_self true) "molecule test -s default"
               None None (demo_world demo_fs)).2 = [].
Proof.
  apply (run_command_dry_run exec_hangs (demo_self true)
           "molecule test -s default" None None (demo_world demo_fs)).
  reflexivity.
Defined.

(** C5. Outside dry-run mode the command is started with a timeout of 600
    seconds; a command that runs into it yields exit code 1, empty stdout and
    the stderr text ["Command timed out after 600 seconds"]; any other failure of the
    invocation yields exit code 1, empty stdout and the failure's description
    as stderr; and in every case [run_command] returns a triple instead of
    raising. *)
Theorem run_command_failures os_exec self cmd cwd_arg env w :
  dry_run self = false →
  let sp := spawn_of self cmd cwd_arg env w in
  sp_timeout sp = 600%Z
  ∧ ((os_exec sp (fs w)).1 = TimeoutExpired →
   (run_command os_exec self cmd cwd_arg env w).1
   = Ok (1%Z, "", "Command timed out after 600 seconds"))
  ∧ (∀ e, (os_exec sp (fs w)).1 = OtherException e →
          (run_command os_exec self cmd cwd_arg env w).1 = Ok (1%Z, "", e))
  ∧ (∃ t, (run_command os_exec self cmd cwd_arg env w).1 = Ok t).
Proof.
  intros Hd sp. unfold run_command, subprocess_run. rewrite Hd. fold sp.
  destruct (os_exec sp (fs w)) as [o tree]. simpl.
  split; [done|]. split; [|split].
  - by intros ->.
  - by intros e ->.
  - destruct o; by eexists.
Qed.

Lemma run_command_failures_witness :
  (run_command exec_hangs (demo_self false) "sleep 601" None None
     (demo_world demo_fs)).1
  = Ok (1%Z, "", "Command timed out after 600 seconds")
  ∧ (run_command exec_broken (demo_self false) "true" None None
       (demo_world demo_fs)).1
    = Ok (1%Z, "", "[Errno 2] No such file or directory: '/srv/repo'").
Proof.
  split.
  - exact (proj1 (proj2 (run_command_failures exec_hangs (demo_self false)
                           "sleep 601" None None (demo_world demo_fs) eq_refl))
             eq_refl).
  - exact (proj1 (proj2 (proj2 (run_command_failures exec_broken
                                  (demo_self false) "true" None None
                                  (demo_world demo_fs) eq_refl)))
             _ eq_refl).
Defined.

(** *** The stage runners *)

Ltac munfold :=
  unfold mbind, M_bind, bind, mret, M_ret, ret, time_time, path_exists in *.

Section Runners.

Variable os_exec : Spawn → node → ProcOutcome * node.
Variable wall : nat → float.
Variable self : CIPipeline.

Local Abbreviation command' := (run_command os_exec self).
Local Abbreviation lint' := (run_lint os_exec wall self).
Local Abbreviation syntax' := (run_syntax os_exec wall self).
Local Abbreviation molecule' := (run_molecule os_exec wall self).

(** [run_lint], in terms of what its two commands return. *)
Lemma run_lint_unfold role_arg w rc1 o1 e1 w2 rc2 o2 e2 w3 :
  command' (yamllint_cmd self role_arg) None None (tick w)
    = (Ok (rc1, o1, e1), w2) →
  command' (ansible_lint_cmd self role_arg) None None w2
    = (Ok (rc2, o2, e2), w3) →
  lint' role_arg w
  = (Ok (mkStageResult
           (if truthy role_arg then "lint:" +:+ default "" role_arg else "lint:all")
           (if negb (rc2 =? 0)%Z then FAILED
            else if (rc1 =? 0)%Z then PASSED else FAILED)
           (wall (ticks w3) - wall (ticks w))%float
           (if negb (rc2 =? 0)%Z then o1 +:+ lint_banner +:+ o2 else o1)
           (if negb (rc2 =? 0)%Z then e1 +:+ e2 else e1)
           (yamllint_cmd self role_arg)
           (str_or role_arg "all")),
     tick w3).
Proof.
  intros H1 H2. unfold run_lint. munfold. rewrite H1, H2.
  by destruct (negb (rc2 =? 0)%Z).
Qed.

(** [run_syntax] without the conventional entry file. *)
Lemma run_syntax_skip r w :
  r ≠ "" →
  FS.exists_ (fs w) (cwd w) (converge_path self r) = false →
  syntax' (Some r) w
  = (Ok (mkStageResult ("syntax:" +:+ r) SKIPPED 0 "No converge.yml found"
           "" "" r),
     tick w).
Proof.
  intros Hr Hc. apply String.eqb_neq in Hr.
  unfold run_syntax. munfold. simpl. rewrite Hr. simpl. by rewrite Hc.
Qed.

Lemma run_syntax_skips role_arg w :
  syntax_skips self role_arg w = true →
  syntax' role_arg w
  = (Ok (mkStageResult ("syntax:" +:+ default "" role_arg) SKIPPED 0
           "No converge.yml found" "" "" (default "" role_arg)),
     tick w).
Proof.
  unfold syntax_skips. intros [Ht Hc]%andb_prop.
  destruct role_arg as [r|]; [|done]. simpl in *.
  apply run_syntax_skip.
  - intros ->. done.
  - by destruct (FS.exists_ _ _ _).
Qed.

Lemma run_syntax_runs role_arg w rc o e w2 :
  syntax_skips self role_arg w = false →
  command' (syntax_cmd self role_arg) None None (tick w) = (Ok (rc, o, e), w2) →
  syntax' role_arg w
  = (Ok (mkStageResult
           (if truthy role_arg then "syntax:" +:+ default "" role_arg
            else "syntax:all")
           (if (rc =? 0)%Z then PASSED else FAILED)
           (wall (ticks w2) - wall (ticks w))%float o e
           (syntax_cmd self role_arg) (str_or role_arg "all")),
     tick w2).
Proof.
  unfold syntax_skips, syntax_cmd, run_syntax. munfold.
  destruct (truthy role_arg); simpl.
  - intros Hc%negb_false_iff. rewrite Hc. by intros ->.
  - by intros _ ->.
Qed.

Lemma run_molecule_unfold r scenario w rc o e w2 :
  command' ("molecule test -s " +:+ scenario) (Some (role_path self r)) None
    (tick w) = (Ok (rc, o, e), w2) →
  molecule' r scenario w
  = (Ok (mkStageResult ("molecule:" +:+ r +:+ ":" +:+ scenario)
           (if (rc =? 0)%Z then PASSED else FAILED)
           (wall (ticks w2) - wall (ticks w))%float o e
           ("molecule test -s " +:+ scenario) r),
     tick w2).
Proof. intros H. unfold run_molecule. munfold. by rewrite H. Qed.

Lemma run_lint_terminal role_arg :
  returns_in (λ r, terminal (status r)) (lint' role_arg).
Proof.
  intros w r w'.
  destruct (run_command_returns os_exec self (yamllint_cmd self role_arg)
              None None (tick w)) as ([[rc1 o1] e1] & w2 & H1).
  destruct (run_command_returns os_exec self (ansible_lint_cmd self role_arg)
              None None w2) as ([[rc2 o2] e2] & w3 & H2).
  rewrite (run_lint_unfold _ _ _ _ _ _ _ _ _ _ H1 H2).
  intros [= <- _]. unfold terminal. simpl.
  destruct (negb _), (rc1 =? 0)%Z; auto.
Qed.

Lemma run_syntax_terminal role_arg :
  returns_in (λ r, terminal (status r)) (syntax' role_arg).
Proof.
  intros w r w'. destruct (syntax_skips self role_arg w) eqn:Hs.
  - rewrite (run_syntax_skips _ _ Hs). intros [= <- _]. unfold terminal; auto.
  - destruct (run_command_returns os_exec self (syntax_cmd self role_arg)
                None None (tick w)) as ([[rc o] e] & w2 & H).
    rewrite (run_syntax_runs _ _ _ _ _ _ Hs H). intros [= <- _].
    unfold terminal. simpl. destruct (rc =? 0)%Z; auto.
Qed.

Lemma run_molecule_terminal r scenario :
  returns_in (λ r, terminal (status r)) (molecule' r scenario).
Proof.
  intros w res w'.
  destruct (run_command_returns os_exec self ("molecule test -s " +:+ scenario)
              (Some (role_path self r)) None (tick w)) as ([[rc o] e] & w2 & H).
  rewrite (run_molecule_unfold _ _ _ _ _ _ _ H). intros [= <- _].
  unfold terminal. simpl. destruct (rc =? 0)%Z; auto.
Qed.

End Runners.



(** C9, as the code has it. The one result of [run_lint] is [FAILED] exactly
    when at least one of the two linters returns a non-zero exit code. The
    second linter's stdout (after a banner) and stderr are appended to the
    first linter's exactly when the second linter returns non-zero;
    otherwise the result carries the first linter's streams alone. *)
Theorem run_lint_status_and_streams os_exec wall self role_arg w :
  ∃ rc1 o1 e1 w2 rc2 o2 e2 w3 res,
    run_command os_exec self (yamllint_cmd self role_arg) None None (tick w)
      = (Ok (rc1, o1, e1), w2)
    ∧ run_command os_exec self (ansible_lint_cmd self role_arg) None None w2
      = (Ok (rc2, o2, e2), w3)
    ∧ run_lint os_exec wall self role_arg w = (Ok res, tick w3)
    ∧ (status res = FAILED ↔ rc1 ≠ 0%Z ∨ rc2 ≠ 0%Z)
    ∧ (status res = PASSED ↔ rc1 = 0%Z ∧ rc2 = 0%Z)
    ∧ (rc2 ≠ 0%Z →
       output res = o1 +:+ lint_banner +:+ o2 ∧ error res = e1 +:+ e2)
    ∧ (rc2 = 0%Z → output res = o1 ∧ error res = e1).
Proof.
  destruct (run_command_returns os_exec self (yamllint_cmd self role_arg)
              None None (tick w)) as ([[rc1 o1] e1] & w2 & H1).
  destruct (run_command_returns os_exec self (ansible_lint_cmd self role_arg)
              None None w2) as ([[rc2 o2] e2] & w3 & H2).
  exists rc1, o1, e1, w2, rc2, o2, e2, w3. eexists.
  split; [exact H1|]. split; [exact H2|].
  split; [by eapply run_lint_unfold|]. simpl.
  destruct (Z.eqb_spec rc2 0) as [->|Hn2], (Z.eqb_spec rc1 0) as [->|Hn1];
    simpl; repeat split; try done; try tauto; intuition congruence.
Qed.

Lemma run_lint_status_and_streams_witness :
  ∃ res w',
    run_lint exec_yamllint_fails demo_wall (demo_self false)
      (Some "net/ssh/hardened") (demo_world demo_fs) = (Ok res, w')
    ∧ status res = FAILED.
Proof.
  destruct (run_lint_status_and_streams exec_yamllint_fails demo_wall
              (demo_self false) (Some "net/ssh/hardened") (demo_world demo_fs))
    as (rc1 & o1 & e1 & w2 & rc2 & o2 & e2 & w3 & res & H1 & _ & Hrun & Hfailed & _).
  exists res, (tick w3). split; [exact Hrun|].
  apply Hfailed. left. vm_compute in H1. by injection H1 as <- _ _ _.
Defined.

(** C9 fails as stated: [yamllint] returns 1 and [ansible-lint] returns 0, so
    a linter has failed and the result is [FAILED], yet what [ansible-lint]
    wrote is in neither field of the result. *)
Lemma run_lint_drops_passing_linter :
  let self := demo_self false in
  let w := demo_world demo_fs in
  let role_arg := Some "net/ssh/hardened" in
  let first := run_command exec_yamllint_fails self (yamllint_cmd self role_arg)
                 None None (tick w) in
  let second := run_command exec_yamllint_fails self
                  (ansible_lint_cmd self role_arg) None None first.2 in
  first.1 = Ok (1%Z, "Y", "E1")
  ∧ second.1 = Ok (0%Z, "A", "E2")
  ∧ ∃ res w',
      run_lint exec_yamllint_fails demo_wall self role_arg w = (Ok res, w')
      ∧ status res = FAILED
      ∧ output res = "Y" ∧ output res ≠ "Y" +:+ lint_banner +:+ "A"
      ∧ error res = "E1" ∧ error res ≠ "E1" +:+ "E2".
Proof.
  cbv zeta. split; [reflexivity|]. split; [reflexivity|].
  eexists _, _. split; [vm_compute; reflexivity|]. simpl.
  repeat split; discriminate.
Qed.

(** C10. In dry-run mode no runner produces a [FAILED] result: [run_lint] and
    [run_molecule] return [PASSED], and [run_syntax] returns [PASSED] unless
    the unit's [converge.yml] is absent, in which case it returns [SKIPPED]. *)
Theorem dry_run_never_fails os_exec wall self :
  dry_run self = true →
  (∀ role_arg w, ∃ res w',
      run_lint os_exec wall self role_arg w = (Ok res, w')
      ∧ status res = PASSED)
  ∧ (∀ role_arg w, ∃ res w',
      run_syntax os_exec wall self role_arg w = (Ok res, w')
      ∧ status res = if syntax_skips self role_arg w then SKIPPED else PASSED)
  ∧ (∀ r scenario w, ∃ res w',
      run_molecule os_exec wall self r scenario w = (Ok res, w')
      ∧ status res = PASSED).
Proof.
  intros Hd. split; [|split].
  - intros role_arg w. eexists _, _. split; [|shelve].
    eapply run_lint_unfold; by apply run_command_dry.
    Unshelve. done.
  - intros role_arg w. destruct (syntax_skips self role_arg w) eqn:Hs.
    + eexists _, _. split; [by apply run_syntax_skips|done].
    + eexists _, _. split; [|shelve].
      eapply run_syntax_runs; [done|by apply run_command_dry].
      Unshelve. done.
  - intros r scenario w. eexists _, _. split; [|shelve].
    eapply run_molecule_unfold; by apply run_command_dry.
    Unshelve. done.
Qed.

Lemma dry_run_never_fails_witness :
  (∃ res w',
      run_lint exec_hangs demo_wall (demo_self true) (Some "net/ssh/hardened")
        (demo_world demo_fs) = (Ok res, w')
      ∧ status res = PASSED)
  ∧ (∃ res w',
      run_syntax exec_hangs demo_wall (demo_self true) (Some "net/ssh/hardened")
        (demo_world demo_fs) = (Ok res, w')
      ∧ status res = SKIPPED)
  ∧ (∃ res w',
      run_molecule exec_hangs demo_wall (demo_self true) "net/ssh/hardened"
        "default" (demo_world demo_fs) = (Ok res, w')
      ∧ status res = PASSED).
Proof.
  pose proof (dry_run_never_fails exec_hangs demo_wall (demo_self true) eq_refl)
    as (Hl & Hs & Hm).
  split; [apply Hl|]. split; [apply (Hs (Some "net/ssh/hardened"))|apply Hm].
Defined.

(** *** The scheduler *)

Lemma any_failed_true l :
  any_failed l = true ↔ ∃ r, r ∈ l ∧ status r = FAILED.
Proof.
  unfold any_failed. rewrite existsb_exists. split.
  - intros (r & Hin & Hr). exists r. split; [by apply list_elem_of_In|].
    by apply bool_decide_eq_true in Hr.
  - intros (r & Hin & Hr). exists r. split; [by apply list_elem_of_In|].
    by apply bool_decide_eq_true.
Qed.

Lemma returns_in_bind {A B} (P : A → Prop) (Q : B → Prop) (m : M A) (k : A → M B) :
  returns_in P m → (∀ a, P a → returns_in Q (k a)) → returns_in Q (m ≫= k).
Proof.
  intros Hm Hk w b w'. munfold. destruct (m w) as [[a|e] w1] eqn:E; [|done].
  intros Hb. eapply Hk; [|exact Hb]. by eapply Hm.
Qed.

Lemma returns_in_ret {A} (P : A → Prop) (a : A) : P a → returns_in P (mret a).
Proof. intros Ha w b w'. munfold. by intros [= <- _]. Qed.

Lemma for_each_returns {A B} (P : B → Prop) (f : A → M B) l :
  (∀ x, returns_in P (f x)) → returns_in (Forall P) (for_each f l).
Proof.
  intros Hf. induction l as [|x l IH]; simpl.
  - by apply returns_in_ret.
  - eapply returns_in_bind; [apply Hf|]. intros y Hy.
    eapply returns_in_bind; [apply IH|]. intros ys Hys.
    apply returns_in_ret. by constructor.
Qed.

Lemma run_tasks_gather {A} (P : A → Prop) (ts : list (M A)) :
  Forall (returns_in P) ts →
  ∀ w rs w' l, run_tasks ts w = (rs, w') → gather rs = Ok l → Forall P l.
Proof.
  induction 1 as [|t ts Ht _ IH]; intros w rs w' l; simpl.
  - intros [= <- _]. simpl. by intros [= <-].
  - destruct (t w) as [r w1] eqn:Et.
    destruct (run_tasks ts w1) as [rs' w2] eqn:Ets.
    intros [= <- _]. simpl. destruct r as [a|e]; [|done].
    destruct (gather rs') as [l'|e] eqn:Eg; [|done].
    intros [= <-]. constructor; [by eapply Ht|by eapply IH].
Qed.

Section Scheduler.

Variable os_exec : Spawn → node → ProcOutcome * node.
Variable wall : nat → float.
Variable completion : World → list string → list string.
Variable self : CIPipeline.

Local Abbreviation stage' := (run_stage os_exec wall completion self).
Local Abbreviation one_stage' := (run_one_stage os_exec wall completion self).
Local Abbreviation finished := (Forall (λ r : StageResult, terminal (status r))).

Lemma thread_pool_returns (P : StageResult → Prop) parallel task roles :
  (∀ r, returns_in P (task r)) →
  returns_in (Forall P) (thread_pool completion parallel task roles).
Proof.
  intros Ht w l w'. unfold thread_pool.
  destruct (parallel <=? 0)%Z; [done|].
  destruct (run_tasks _ w) as [rs w1] eqn:E. intros [= Hg _].
  eapply run_tasks_gather; [|exact E|exact Hg].
  apply Forall_fmap, Forall_forall. intros r _. apply Ht.
Qed.

Lemma run_one_stage_terminal stage role_arg parallel :
  returns_in finished (one_stage' stage role_arg parallel).
Proof.
  unfold run_one_stage.
  assert (∀ (P : StageResult → Prop) (m : M StageResult),
            returns_in P m → returns_in (Forall P) (r ← m; mret [r])) as Hone.
  { intros P m Hm. eapply returns_in_bind; [exact Hm|].
    intros r Hr. apply returns_in_ret. by repeat constructor. }
  assert (∀ k : list string → M (list StageResult),
            (∀ roles, returns_in finished (k roles)) →
            returns_in finished (discover_roles self ≫= k)) as Hall.
  { intros k Hk. eapply returns_in_bind with (P := λ _, True); [done|].
    intros roles _. apply Hk. }
  repeat case_match.
  - apply Hone, run_lint_terminal.
  - apply Hall. intros roles. apply thread_pool_returns.
    intros r. apply run_lint_terminal.
  - apply Hone, run_syntax_terminal.
  - apply Hall. intros roles. apply thread_pool_returns.
    intros r. apply run_syntax_terminal.
  - apply Hone, run_molecule_terminal.
  - apply Hall. intros roles. apply for_each_returns.
    intros r. apply run_molecule_terminal.
  - by apply returns_in_ret.
Qed.

Lemma all_stages_terminal todo role_arg parallel results :
  finished results →
  returns_in finished
    (all_stages os_exec wall completion self todo role_arg parallel results).
Proof.
  revert results. induction todo as [|s todo IH]; intros results Hres; simpl.
  - by apply returns_in_ret.
  - eapply returns_in_bind; [apply run_one_stage_terminal|].
    intros l Hl. simpl.
    assert (finished (results ++ l)) by by apply Forall_app.
    destruct (any_failed l); [by apply returns_in_ret|by apply IH].
Qed.

Lemma run_stage_terminal stage role_arg parallel :
  returns_in finished (stage' stage role_arg parallel).
Proof.
  unfold run_stage. destruct (String.eqb stage "all").
  - by apply all_stages_terminal.
  - apply run_one_stage_terminal.
Qed.

End Scheduler.

(** C3. Stage [all] runs [lint], then [syntax], then [molecule], each from
    the world its predecessor left. As soon as a stage has returned a result
    list holding a [FAILED] result, the results gathered so far, that stage's
    included, are returned and no later stage is run; an exception of a stage
    ends the run as well. *)
Theorem run_stage_all_short_circuit os_exec wall completion self role_arg parallel w :
  let stage' := run_stage os_exec wall completion self in
  stage' "all" role_arg parallel w
  = match stage' "lint" role_arg parallel w with
    | (Raise e, w1) => (Raise e, w1)
    | (Ok r1, w1) =>
        if any_failed r1 then (Ok r1, w1)
        else
          match stage' "syntax" role_arg parallel w1 with
          | (Raise e, w2) => (Raise e, w2)
          | (Ok r2, w2) =>
              if any_failed r2 then (Ok (r1 ++ r2)%list, w2)
              else
                match stage' "molecule" role_arg parallel w2 with
                | (Raise e, w3) => (Raise e, w3)
                | (Ok r3, w3) => (Ok (r1 ++ r2 ++ r3)%list, w3)
                end
          end
    end
  ∧ ∀ l, any_failed l = true ↔ ∃ r, r ∈ l ∧ status r = FAILED.
Proof.
  intros stage'. split; [|apply any_failed_true].
  unfold stage', run_stage. simpl. munfold.
  destruct (run_one_stage _ _ _ _ "lint" _ _ w) as [[r1|e1] w1]; [|done].
  destruct (any_failed r1); [done|].
  destruct (run_one_stage _ _ _ _ "syntax" _ _ w1) as [[r2|e2] w2]; [|done].
  destruct (any_failed r2); [done|].
  destruct (run_one_stage _ _ _ _ "molecule" _ _ w2) as [[r3|e3] w3]; [|done].
  rewrite <- (assoc_L (++)). by destruct (any_failed r3).
Qed.

Lemma run_stage_all_short_circuit_witness :
  let stage' := run_stage exec_yamllint_fails demo_wall (λ _ l, l) (demo_self false) in
  stage' "all" None 4%Z (demo_world demo_fs)
  = stage' "lint" None 4%Z (demo_world demo_fs)
  ∧ sp_command <$> spawned (stage' "all" None 4%Z (demo_world demo_fs)).2
    = ["yamllint -c .yamllint.yml /srv/repo/roles/net/ssh/hardened";
       "ansible-lint /srv/repo/roles/net/ssh/hardened"].
Proof.
  intros stage'. split; [|reflexivity].
  unfold stage'.
  rewrite (proj1 (run_stage_all_short_circuit exec_yamllint_fails demo_wall
                    (λ _ l, l) (demo_self false) None 4%Z (demo_world demo_fs))).
  reflexivity.
Defined.

(** *** The result aggregator *)

Lemma count_status_cons st r l :
  count_status st (r :: l)
  = (if decide (status r = st) then 1 else 0) + count_status st l.
Proof.
  unfold count_status. rewrite filter_cons. by destruct (decide (status r = st)).
Qed.

(** A result in a terminal state is counted once. *)
Lemma counts_of_finished l :
  Forall (λ r, terminal (status r)) l →
  count_status PASSED l + count_status FAILED l + count_status SKIPPED l
  = length l.
Proof.
  induction 1 as [|r l Hr _ IH]; [done|].
  rewrite !count_status_cons. simpl length. rewrite <- IH.
  destruct Hr as [-> | [-> | ->]]; simpl; lia.
Qed.

(** The verdict follows the failure count, for any list of results. *)
Lemma print_summary_verdict res :
  (overall_status (print_summary res) = "failed" ↔ 0 < failed (print_summary res))
  ∧ (overall_status (print_summary res) = "passed" ↔ failed (print_summary res) = 0).
Proof.
  unfold print_summary. simpl.
  destruct (Nat.eqb_spec (count_status FAILED (stages res)) 0) as [->|Hn];
    split; split; try done; try lia.
Qed.



(** *** The report generator *)

Lemma str_take_length n s : (String.length (str_take n s) ≤ n)%nat.
Proof.
  revert s. induction n as [|n IH]; intros [|c s]; simpl; try lia.
  specialize (IH s). lia.
Qed.

(** The conditional around the slice changes nothing: [""[:500]] is [""]. *)
Lemma truncated_field s :
  (if String.eqb s "" then "" else str_take 500 s) = str_take 500 s.
Proof. by destruct s. Qed.

Lemma str_app_assoc (a b c : string) : (a +:+ b) +:+ c = a +:+ b +:+ c.
Proof.
  induction a as [|x a IH]; [done|].
  change (String x ((a +:+ b) +:+ c) = String x (a +:+ b +:+ c)). by f_equal.
Qed.

Lemma str_app_nil_r (a : string) : a +:+ "" = a.
Proof.
  induction a as [|x a IH]; [done|].
  change (String x (a +:+ "") = String x a). by f_equal.
Qed.

Section JunitFacts.

Variable format_2f : float → string.

(** The loop of [_generate_junit_xml] appends one test case per stage. *)
Lemma junit_loop (l : list StageResult) (xml : string) :
  fold_left (λ xml stage, xml +:+ junit_testcase format_2f stage) l xml
  = xml +:+ foldr (λ stage rest, junit_testcase format_2f stage +:+ rest) "" l.
Proof.
  revert xml. induction l as [|s l IH]; intros xml; simpl.
  - by rewrite str_app_nil_r.
  - by rewrite IH, str_app_assoc.
Qed.

Lemma junit_testcase_failed s :
  status s = FAILED →
  ∃ pre post,
    junit_testcase format_2f s
    = pre +:+ failure_open +:+ error s +:+ failure_close +:+ post.
Proof.
  intros Hs. unfold junit_testcase. rewrite Hs.
  exists ("  <testcase name=" +:+ dquote +:+ name s +:+ dquote
            +:+ " time=" +:+ dquote +:+ format_2f (duration s) +:+ dquote
            +:+ ">" +:+ nl),
    ("  </testcase>" +:+ nl).
  by rewrite !str_app_assoc.
Qed.

Lemma junit_cases_embed l s :
  s ∈ l → status s = FAILED →
  ∃ pre post,
    foldr (λ stage rest, junit_testcase format_2f stage +:+ rest) "" l
    = pre +:+ failure_open +:+ error s +:+ failure_close +:+ post.
Proof.
  intros Hin Hs. induction Hin as [s l|s s' l _ IH]; simpl.
  - destruct (junit_testcase_failed s Hs) as (pre & post & ->).
    exists pre,
      (post +:+ foldr (λ stage rest, junit_testcase format_2f stage +:+ rest) "" l).
    by rewrite !str_app_assoc.
  - destruct (IH Hs) as (pre & post & ->).
    exists (junit_testcase format_2f s' +:+ pre), post.
    by rewrite !str_app_assoc.
Qed.

End JunitFacts.




(** *** Unit discovery *)

Lemma subrole_ids_elem cname rname subs x :
  x ∈ subrole_ids cname rname subs ↔
  ∃ sname sub, (sname, sub) ∈ subs ∧ FS.is_dir sub = true
               ∧ has_marker sub = true
               ∧ x = cname +:+ "/" +:+ rname +:+ "/" +:+ sname.
Proof.
  unfold subrole_ids. rewrite list_elem_of_bind. split.
  - intros ([sname sub] & Hx & Hin). exists sname, sub.
    destruct (FS.is_dir sub), (has_marker sub);
      try (by apply elem_of_nil in Hx).
    apply list_elem_of_singleton in Hx. done.
  - intros (sname & sub & Hin & Hd & Hm & ->). exists (sname, sub).
    rewrite Hd, Hm. split; [by apply list_elem_of_singleton|done].
Qed.

Lemma role_ids_elem cname rs x :
  x ∈ role_ids cname rs ↔
  (∃ rname role, (rname, role) ∈ rs ∧ FS.is_dir role = true
                 ∧ has_marker role = true ∧ x = cname +:+ "/" +:+ rname)
  ∨ (∃ rname subs sname sub,
        (rname, Dir subs) ∈ rs ∧ has_marker (Dir subs) = false
        ∧ (sname, sub) ∈ subs ∧ FS.is_dir sub = true ∧ has_marker sub = true
        ∧ x = cname +:+ "/" +:+ rname +:+ "/" +:+ sname).
Proof.
  unfold role_ids. rewrite list_elem_of_bind. split.
  - intros ([rname role] & Hx & Hin). destruct role as [|subs].
    { by apply elem_of_nil in Hx. }
    destruct (has_marker (Dir subs)) eqn:Hm.
    + apply list_elem_of_singleton in Hx. left. by exists rname, (Dir subs).
    + apply subrole_ids_elem in Hx as (sname & sub & ? & ? & ? & ->).
      right. by exists rname, subs, sname, sub.
  - intros [(rname & role & Hin & Hd & Hm & ->)
           |(rname & subs & sname & sub & Hin & Hm & Hs & Hd & Hms & ->)].
    + exists (rname, role). split; [|done]. destruct role; [done|].
      rewrite Hm. by apply list_elem_of_singleton.
    + exists (rname, Dir subs). split; [|done]. rewrite Hm.
      apply subrole_ids_elem. by exists sname, sub.
Qed.

Lemma category_ids_elem cats x :
  x ∈ category_ids cats ↔ unit_recorded cats x ∨ subunit_recorded cats x.
Proof.
  unfold category_ids, unit_recorded, subunit_recorded.
  rewrite list_elem_of_bind. split.
  - intros ([cname cat] & Hx & Hin). destruct cat as [|rs].
    { by apply elem_of_nil in Hx. }
    destruct (hidden cname) eqn:Hh; simpl in Hx.
    { by apply elem_of_nil in Hx. }
    apply role_ids_elem in Hx
      as [(rname & role & ? & ? & ? & ->)
         |(rname & subs & sname & sub & ? & ? & ? & ? & ? & ->)].
    + left. by exists cname, rs, rname, role.
    + right. by exists cname, rs, rname, subs, sname, sub.
  - intros [(cname & rs & rname & role & Hin & Hh & ? & ? & ? & ->)
           |(cname & rs & rname & subs & sname & sub & Hin & Hh & ? & ? & ? & ? & ? & ->)];
      exists (cname, Dir rs); (split; [|done]); rewrite Hh; simpl;
      apply role_ids_elem.
    + left. by exists rname, role.
    + right. by exists rname, subs, sname, sub.
Qed.

Lemma slash_free_cons c s : slash_free (String c s) → c ≠ slash ∧ slash_free s.
Proof.
  unfold slash_free. simpl. intros [Hc Hs]%andb_prop. split; [|done].
  intros ->. by rewrite Ascii.eqb_refl in Hc.
Qed.

(** A name is determined by any identifier it starts. *)
Lemma name_prefix_inj a b ta tb :
  slash_free a → slash_free b → tail_ok ta → tail_ok tb →
  a +:+ ta = b +:+ tb → a = b.
Proof.
  revert b. induction a as [|x a IH]; intros [|y b] Ha Hb Hta Htb.
  - done.
  - apply slash_free_cons in Hb as [Hy _].
    change ("" +:+ ta) with ta. change (String y b +:+ tb) with (String y (b +:+ tb)).
    intros ->. destruct Hta as [|[t' Ht]]; [done|]. by injection Ht as -> _.
  - apply slash_free_cons in Ha as [Hx _].
    change ("" +:+ tb) with tb. change (String x a +:+ ta) with (String x (a +:+ ta)).
    intros <-. destruct Htb as [|[t' Ht]]; [done|]. by injection Ht as -> _.
  - apply slash_free_cons in Ha as [_ Ha]. apply slash_free_cons in Hb as [_ Hb].
    change (String x a +:+ ta) with (String x (a +:+ ta)).
    change (String y b +:+ tb) with (String y (b +:+ tb)).
    intros [= -> H]. f_equal. by apply IH.
Qed.

Lemma name_ok_slash_free s : FS.name_ok s = true → slash_free s.
Proof. unfold FS.name_ok. by intros [_ H]%andb_prop. Qed.

(** What [FS.wf] says of a directory. *)
Lemma wf_Dir es :
  FS.wf (Dir es) = true →
  NoDup es.*1 ∧ ∀ k n, (k, n) ∈ es → slash_free k ∧ FS.wf n = true.
Proof.
  simpl. intros [[Hnd Hnames]%andb_prop Hsub]%andb_prop.
  apply bool_decide_eq_true in Hnd. split; [done|].
  clear Hnd. induction es as [|[k' n'] es IH]; intros k n Hin.
  { by apply elem_of_nil in Hin. }
  simpl in Hnames, Hsub.
  apply andb_prop in Hnames as [Hk Hnames].
  apply andb_prop in Hsub as [Hn Hsub].
  apply elem_of_cons in Hin as [[= -> ->]|Hin].
  - split; [by apply name_ok_slash_free|done].
  - by apply IH.
Qed.

(** Lists built entry by entry have no duplicates when the entries have
    distinct names and every element tells the name of its entry. *)
Lemma NoDup_bind_names {A} (f : string * A → list string) (l : list (string * A)) :
  NoDup l.*1 →
  (∀ e, e ∈ l → NoDup (f e)) →
  (∀ e1 e2 x, e1 ∈ l → e2 ∈ l → x ∈ f e1 → x ∈ f e2 → e1.1 = e2.1) →
  NoDup (l ≫= f).
Proof.
  induction l as [|e l IH]; intros Hnd Hf Hkey; [constructor|].
  change ((e :: l) ≫= f) with (f e ++ (l ≫= f))%list.
  apply NoDup_cons in Hnd as [Hnotin Hnd].
  apply NoDup_app. split; [|split].
  - apply Hf. left.
  - intros x Hx (e' & Hx' & Hin')%list_elem_of_bind. apply Hnotin.
    rewrite (Hkey e e' x); [by apply list_elem_of_fmap_2| left | by right | done | done].
  - apply IH; [done| |].
    + intros e' He'. apply Hf. by right.
    + intros e1 e2 x H1 H2. apply Hkey; by right.
Qed.

Lemma subrole_ids_NoDup cname rname subs :
  NoDup subs.*1 → NoDup (subrole_ids cname rname subs).
Proof.
  intros Hnd. apply NoDup_bind_names; [done| |].
  - intros [sname sub] _. destruct (FS.is_dir sub), (has_marker sub);
      first [apply NoDup_nil_2 | apply NoDup_singleton].
  - intros [s1 n1] [s2 n2] x _ _ H1 H2. simpl.
    assert (∀ s n, x ∈ (if FS.is_dir n
                        then if has_marker n
                             then [cname +:+ "/" +:+ rname +:+ "/" +:+ s] else []
                        else []) → x = cname +:+ "/" +:+ rname +:+ "/" +:+ s) as Hx.
    { intros s n. destruct (FS.is_dir n), (has_marker n);
        intros H; try (by apply elem_of_nil in H).
      by apply list_elem_of_singleton in H. }
    apply Hx in H1. apply Hx in H2. rewrite H1 in H2.
    by do 4 apply (inj (String.append _)) in H2.
Qed.

(** Every identifier of a role's entry starts with the category and the
    role's name. *)
Lemma role_entry_ids cname rname role x :
  x ∈ match role with
      | Dir subs =>
          if has_marker role then [cname +:+ "/" +:+ rname]
          else subrole_ids cname rname subs
      | File => []
      end →
  ∃ t, tail_ok t ∧ x = cname +:+ "/" +:+ rname +:+ t.
Proof.
  destruct role as [|subs]; [by intros H%elem_of_nil|].
  destruct (has_marker (Dir subs)).
  - intros ->%list_elem_of_singleton. exists "". split; [by left|].
    by rewrite str_app_nil_r.
  - intros (sname & sub & _ & _ & _ & ->)%subrole_ids_elem.
    exists ("/" +:+ sname). split; [right; by eexists|done].
Qed.

Lemma role_ids_NoDup cname rs :
  FS.wf (Dir rs) = true → NoDup (role_ids cname rs).
Proof.
  intros [Hnd Hsub]%wf_Dir. apply NoDup_bind_names; [done| |].
  - intros [rname role] Hin. destruct role as [|subs]; [constructor|].
    destruct (has_marker (Dir subs)); [apply NoDup_singleton|].
    apply subrole_ids_NoDup. destruct (Hsub _ _ Hin) as [_ Hwf].
    by apply wf_Dir in Hwf as [? _].
  - intros [r1 n1] [r2 n2] x Hin1 Hin2 H1 H2. simpl.
    apply role_entry_ids in H1 as (t1 & Ht1 & ->).
    apply role_entry_ids in H2 as (t2 & Ht2 & H).
    do 2 apply (inj (String.append _)) in H.
    destruct (Hsub _ _ Hin1) as [Hs1 _]. destruct (Hsub _ _ Hin2) as [Hs2 _].
    exact (name_prefix_inj _ _ _ _ Hs1 Hs2 Ht1 Ht2 H).
Qed.

Lemma category_ids_NoDup cats :
  FS.wf (Dir cats) = true → NoDup (category_ids cats).
Proof.
  intros [Hnd Hsub]%wf_Dir. apply NoDup_bind_names; [done| |].
  - intros [cname cat] Hin. destruct cat as [|rs]; [constructor|].
    destruct (negb (hidden cname)); [|constructor].
    apply role_ids_NoDup. by destruct (Hsub _ _ Hin).
  - intros [c1 n1] [c2 n2] x Hin1 Hin2 H1 H2. simpl.
    assert (∀ c n, x ∈ match n with
                       | Dir rs => if negb (hidden c) then role_ids c rs else []
                       | File => []
                       end → ∃ t, x = c +:+ "/" +:+ t) as Hx.
    { intros c [|rs]; [by intros H%elem_of_nil|].
      destruct (negb (hidden c)); [|by intros H%elem_of_nil].
      unfold role_ids. intros ([rname role] & H & _)%list_elem_of_bind.
      apply role_entry_ids in H as (t & _ & ->). by eexists. }
    apply Hx in H1 as (t1 & ->). apply Hx in H2 as (t2 & H).
    destruct (Hsub _ _ Hin1) as [Hs1 _]. destruct (Hsub _ _ Hin2) as [Hs2 _].
    eapply name_prefix_inj; [exact Hs1|exact Hs2| | |exact H];
      right; by eexists.
Qed.

Lemma sorted_elem l x : x ∈ sorted l ↔ x ∈ l.
Proof. unfold sorted. by rewrite merge_sort_Permutation. Qed.

(** C7. Over a well-formed tree, [discover_roles] returns exactly the
    identifiers [category/unit] of the units that hold the marker path and
    [category/unit/subunit] of the marked subunits of units that lack it,
    nothing from deeper levels, sorted in ascending order and without
    duplicates. On the tree where [net/ssh] has no marker and
    [net/ssh/hardened] has one, the result is [["net/ssh/hardened"]]. *)
Theorem discover_roles_units self w cats :
  FS.stat (fs w) (cwd w) (roles_dir self) = inr (Dir cats) →
  FS.wf (Dir cats) = true →
  ∃ ids,
    discover_roles self w = (Ok ids, w)
    ∧ (∀ x, x ∈ ids ↔ unit_recorded cats x ∨ subunit_recorded cats x)
    ∧ StronglySorted String.le ids
    ∧ NoDup ids
    ∧ (cats = net_roles → ids = ["net/ssh/hardened"]).
Proof.
  intros Hstat Hwf. exists (sorted (category_ids cats)).
  split; [|split; [|split; [|split]]].
  - unfold discover_roles, iterdir. munfold. by rewrite Hstat.
  - intros x. by rewrite sorted_elem, category_ids_elem.
  - apply (StronglySorted_merge_sort _).
  - unfold sorted. rewrite merge_sort_Permutation. by apply category_ids_NoDup.
  - by intros ->.
Qed.

Lemma discover_roles_units_witness :
  ∃ ids,
    discover_roles (demo_self false) (demo_world demo_fs)
      = (Ok ids, demo_world demo_fs)
    ∧ (∀ x, x ∈ ids ↔ unit_recorded net_roles x ∨ subunit_recorded net_roles x)
    ∧ StronglySorted String.le ids
    ∧ NoDup ids
    ∧ (net_roles = net_roles → ids = ["net/ssh/hardened"]).
Proof.
  apply (discover_roles_units (demo_self false) (demo_world demo_fs) net_roles);
    reflexivity.
Defined.

(** C1, as the code has it. When the roles directory exists and nothing in it
    is recorded, [discover_roles] returns the empty list without raising.
    When the roles directory does not exist, [discover_roles] raises
    [FileNotFoundError]. *)
Theorem discover_roles_nothing self w :
  (∀ cats,
      FS.stat (fs w) (cwd w) (roles_dir self) = inr (Dir cats) →
      (∀ x, ¬ unit_recorded cats x ∧ ¬ subunit_recorded cats x) →
      discover_roles self w = (Ok [], w))
  ∧ (FS.stat (fs w) (cwd w) (roles_dir self) = inl FS.ENOENT →
     discover_roles self w = (Raise FileNotFoundError, w)).
Proof.
  split.
  - intros cats Hstat Hnone. unfold discover_roles, iterdir. munfold.
    rewrite Hstat. replace (category_ids cats) with (@nil string); [done|].
    symmetry. apply elem_of_nil_inv. intros x Hx%category_ids_elem.
    destruct (Hnone x). tauto.
  - intros Hstat. unfold discover_roles, iterdir. munfold. by rewrite Hstat.
Qed.

Lemma discover_roles_nothing_witness :
  discover_roles (demo_self false) (demo_world unmarked_fs)
    = (Ok [], demo_world unmarked_fs)
  ∧ discover_roles (demo_self false) (demo_world bare_fs)
    = (Raise FileNotFoundError, demo_world bare_fs).
Proof.
  split.
  - eapply (proj1 (discover_roles_nothing (demo_self false)
                     (demo_world unmarked_fs))); [reflexivity|].
    set (cats := [("net", Dir [("ssh", Dir [("tasks", Dir [("main.yml", File)])])]);
                  ("README.md", File)]).
    intros x. split; intros H; apply (not_elem_of_nil x);
      change (x ∈ category_ids cats); apply category_ids_elem; tauto.
  - apply (proj2 (discover_roles_nothing (demo_self false)
                    (demo_world bare_fs))). reflexivity.
Defined.

(** C1 fails as stated: without a [roles] directory, [discover_roles] raises
    instead of returning the empty list. *)
Lemma discover_roles_missing_root :
  FS.exists_ bare_fs ["srv"; "repo"] (roles_dir (demo_self false)) = false
  ∧ discover_roles (demo_self false) (demo_world bare_fs)
    = (Raise FileNotFoundError, demo_world bare_fs)
  ∧ discover_roles (demo_self false) (demo_world bare_fs)
    ≠ (Ok [], demo_world bare_fs).
Proof. repeat split. discriminate. Qed.

(** ** Further properties *)

(** *** Identifiers and paths *)

Lemma str_append_cons c s t : String c s +:+ t = String c (s +:+ t).
Proof. done. Qed.

(** [role.replace('/', '/')] changes nothing. *)
Lemma str_replace_same a s : str_replace a a s = s.
Proof.
  induction s as [|c s IH]; simpl; [done|]. rewrite IH.
  by destruct (Ascii.eqb_spec c a) as [->|].
Qed.

Lemma str_split_slash_free s : slash_free s → str_split slash s = [s].
Proof.
  induction s as [|c s IH]; [done|].
  intros [Hc Hs]%slash_free_cons. simpl.
  destruct (Ascii.eqb_spec c slash) as [->|_]; [done|]. by rewrite IH.
Qed.

Lemma str_split_name c rest :
  slash_free c →
  str_split slash (c +:+ "/" +:+ rest) = c :: str_split slash rest.
Proof.
  induction c as [|a c IH]; [done|].
  intros [Ha Hc]%slash_free_cons. rewrite str_append_cons. simpl.
  destruct (Ascii.eqb_spec a slash) as [->|_]; [done|]. by rewrite IH.
Qed.

Lemma name_ok_facts k :
  FS.name_ok k = true → k ≠ "" ∧ k ≠ "." ∧ k ≠ ".." ∧ slash_free k.
Proof.
  unfold FS.name_ok.
  intros [[[H1 H2]%andb_prop H3]%andb_prop H4]%andb_prop.
  repeat split; try done; intros ->; done.
Qed.

Lemma wf_Dir_names es k n :
  FS.wf (Dir es) = true → (k, n) ∈ es → FS.name_ok k = true.
Proof.
  simpl. intros [[_ Hnames]%andb_prop _]%andb_prop Hin.
  rewrite forallb_forall in Hnames.
  by apply (Hnames (k, n)), list_elem_of_In.
Qed.

(** In a directory with distinct names, looking a name up finds its entry. *)
Lemma entry_of_elem es k n :
  NoDup es.*1 → (k, n) ∈ es → FS.entry k es = Some n.
Proof.
  induction es as [|[k' n'] es IH]; [by intros _ ?%elem_of_nil|].
  intros [Hnotin Hnd]%NoDup_cons [[= -> ->]|Hin]%elem_of_cons; simpl.
  - by rewrite String.eqb_refl.
  - destruct (String.eqb_spec k' k) as [->|_]; [|by apply IH].
    destruct Hnotin. by apply (list_elem_of_fmap_2 fst _ (k, n)).
Qed.

(** Resolving a longer path goes through the node its front part names. *)
Lemma walk_app ps : ∀ anc cur n,
  FS.walk anc cur ps = inr n →
  ∃ anc', ∀ qs, FS.walk anc cur (ps ++ qs) = FS.walk anc' n qs.
Proof.
  induction ps as [|p ps IH]; intros anc cur n; simpl.
  - intros [= ->]. by exists anc.
  - destruct cur as [|es]; [done|].
    destruct (String.eqb p "..").
    + destruct anc as [|a anc']; apply IH.
    + destruct (FS.entry p es) as [c|]; [apply IH|done].
Qed.

(** Stepping into an entry that is not [".."]. *)
Lemma walk_step anc es k n qs :
  k ≠ ".." → FS.entry k es = Some n →
  FS.walk anc (Dir es) (k :: qs) = FS.walk (Dir es :: anc) n qs.
Proof.
  intros Hk He. simpl. apply String.eqb_neq in Hk. by rewrite Hk, He.
Qed.

(** Whether a directory holds the marker does not depend on where it is. *)
Lemma walk_marker anc d :
  has_marker d = true →
  ∃ n, FS.walk anc d ["molecule"; "default"] = inr n.
Proof.
  unfold has_marker, FS.has. destruct d as [|es]; [done|]. simpl.
  destruct (FS.entry "molecule" es) as [[|es']|]; try done. simpl.
  destruct (FS.entry "default" es') as [n|]; [by eexists|done].
Qed.

Lemma prefix_cons a b s1 s2 :
  String.prefix (String a s1) (String b s2)
  = if ascii_dec a b then String.prefix s1 s2 else false.
Proof. done. Qed.

(** A string that starts with a name does not start with a slash. *)
Lemma name_not_anchored k t :
  FS.name_ok k = true → String.prefix "/" (k +:+ t) = false.
Proof.
  intros (Hne & _ & _ & Hs)%name_ok_facts. destruct k as [|a k]; [done|].
  apply slash_free_cons in Hs as [Ha _]. rewrite str_append_cons, prefix_cons.
  destruct (ascii_dec "/" a) as [<-|_]; [by destruct Ha|done].
Qed.

Lemma segments_name k :
  FS.name_ok k = true → PurePath.segments k = [k].
Proof.
  intros (Hne & Hdot & _ & Hs)%name_ok_facts. unfold PurePath.segments.
  rewrite str_split_slash_free by done.
  rewrite filter_cons_True by done. done.
Qed.

Lemma segments_cons k rest :
  FS.name_ok k = true →
  PurePath.segments (k +:+ "/" +:+ rest) = k :: PurePath.segments rest.
Proof.
  intros (Hne & Hdot & _ & Hs)%name_ok_facts. unfold PurePath.segments.
  rewrite str_split_name by done.
  rewrite filter_cons_True by done. done.
Qed.

Lemma div_parts p qs k :
  FS.name_ok k = true →
  PurePath.mk (PurePath.anchored p) (PurePath.parts p ++ qs) // k
  = PurePath.mk (PurePath.anchored p) (PurePath.parts p ++ qs ++ [k]).
Proof.
  intros Hk. unfold PurePath.div.
  rewrite <- (str_app_nil_r k) at 1. rewrite (name_not_anchored k "" Hk).
  rewrite segments_name by done. simpl. by rewrite <- (assoc_L (++)).
Qed.

Lemma div_unit p c r :
  FS.name_ok c = true → FS.name_ok r = true →
  p // (c +:+ "/" +:+ r)
  = PurePath.mk (PurePath.anchored p) (PurePath.parts p ++ [c; r]).
Proof.
  intros Hc Hr. unfold PurePath.div. rewrite (name_not_anchored c _ Hc).
  by rewrite segments_cons, segments_name.
Qed.

Lemma div_subunit p c r s :
  FS.name_ok c = true → FS.name_ok r = true → FS.name_ok s = true →
  p // (c +:+ "/" +:+ r +:+ "/" +:+ s)
  = PurePath.mk (PurePath.anchored p) (PurePath.parts p ++ [c; r; s]).
Proof.
  intros Hc Hr Hs. unfold PurePath.div. rewrite (name_not_anchored c _ Hc).
  by rewrite !segments_cons, segments_name.
Qed.

(** Below a directory that [p] names, resolution continues from that
    directory. *)
Lemma stat_below root cwd p d :
  FS.stat root cwd p = inr d →
  ∃ anc, ∀ qs,
    FS.stat root cwd (PurePath.mk (PurePath.anchored p) (PurePath.parts p ++ qs))
    = FS.walk anc d qs.
Proof.
  unfold FS.stat. intros H. destruct (walk_app _ _ _ _ H) as [anc Hanc].
  exists anc. intros qs. simpl. by rewrite (assoc_L (++)).
Qed.

Lemma walk_entry anc es k n qs :
  FS.wf (Dir es) = true → (k, n) ∈ es →
  FS.walk anc (Dir es) (k :: qs) = FS.walk (Dir es :: anc) n qs.
Proof.
  intros Hwf Hin. apply walk_step.
  - by apply (wf_Dir_names _ _ _ Hwf), name_ok_facts in Hin as (_ & _ & ? & _).
  - apply entry_of_elem; [by apply wf_Dir in Hwf as [? _]|done].
Qed.

(** What a successful discovery has read. *)
Lemma discover_roles_ok self w roles w' :
  discover_roles self w = (Ok roles, w') →
  w' = w
  ∧ ∃ cats, FS.stat (fs w) (cwd w) (roles_dir self) = inr (Dir cats)
            ∧ roles = sorted (category_ids cats).
Proof.
  unfold discover_roles, iterdir. munfold.
  destruct (FS.stat _ _ _) as [[|]|[|cats]]; try done.
  intros [= <- <-]. split; [done|]. by exists cats.
Qed.

Lemma marker_names_ok :
  FS.name_ok "molecule" = true ∧ FS.name_ok "default" = true.
Proof. done. Qed.

Section Discovery.

Variable self : CIPipeline.
Variable w : World.
Variable cats : list (string * node).
Hypothesis Hstat : FS.stat (fs w) (cwd w) (roles_dir self) = inr (Dir cats).
Hypothesis Hwf : FS.wf (Dir cats) = true.

(** The directory of a recorded unit is where its identifier leads, seen from
    the roles directory. *)
Lemma unit_resolves x :
  x ∈ category_ids cats →
  ∃ anc d,
    FS.stat (fs w) (cwd w) (role_path self x) = inr d
    ∧ FS.is_dir d = true ∧ has_marker d = true
    ∧ ∀ qs, FS.stat (fs w) (cwd w)
              (PurePath.mk (PurePath.anchored (role_path self x))
                 (PurePath.parts (role_path self x) ++ qs))
            = FS.walk anc d qs.
Proof.
  destruct (stat_below _ _ _ _ Hstat) as [anc Hanc].
  destruct (wf_Dir _ Hwf) as [_ Hsub].
  unfold role_path. rewrite str_replace_same.
  intros [(c & rs & r & d & Hc & _ & Hr & Hd & Hm & ->)
         |(c & rs & r & subs & s & d & Hc & _ & Hr & _ & Hs & Hd & Hm & ->)]
         %category_ids_elem.
  - destruct (Hsub _ _ Hc) as [_ Hwfc].
    rewrite div_unit by eauto using wf_Dir_names.
    exists (Dir rs :: Dir cats :: anc), d. split; [|split; [done|split; [done|]]].
    + rewrite Hanc, (walk_entry _ _ _ _ _ Hwf Hc), (walk_entry _ _ _ _ _ Hwfc Hr).
      done.
    + intros qs. simpl. rewrite <- (assoc_L (++)), Hanc. simpl app.
      by rewrite (walk_entry _ _ _ _ _ Hwf Hc), (walk_entry _ _ _ _ _ Hwfc Hr).
  - destruct (Hsub _ _ Hc) as [_ Hwfc].
    destruct (wf_Dir _ Hwfc) as [_ Hsubc].
    destruct (Hsubc _ _ Hr) as [_ Hwfr].
    rewrite div_subunit by eauto using wf_Dir_names.
    exists (Dir subs :: Dir rs :: Dir cats :: anc), d.
    split; [|split; [done|split; [done|]]].
    + rewrite Hanc, (walk_entry _ _ _ _ _ Hwf Hc), (walk_entry _ _ _ _ _ Hwfc Hr),
        (walk_entry _ _ _ _ _ Hwfr Hs). done.
    + intros qs. simpl. rewrite <- (assoc_L (++)), Hanc. simpl app.
      by rewrite (walk_entry _ _ _ _ _ Hwf Hc), (walk_entry _ _ _ _ _ Hwfc Hr),
        (walk_entry _ _ _ _ _ Hwfr Hs).
Qed.

End Discovery.

(** X1. Every identifier that [discover_roles] returns leads back, through
    [role_path], to a directory of the tree that holds the marker path: the
    runners are handed units that exist. *)
Theorem discovered_unit_has_marker self w cats roles w' x :
  FS.stat (fs w) (cwd w) (roles_dir self) = inr (Dir cats) →
  FS.wf (Dir cats) = true →
  discover_roles self w = (Ok roles, w') →
  x ∈ roles →
  (∃ d, FS.stat (fs w) (cwd w) (role_path self x) = inr d
        ∧ FS.is_dir d = true ∧ has_marker d = true)
  ∧ FS.exists_ (fs w) (cwd w) (role_path self x // "molecule" // "default")
    = true.
Proof.
  intros Hstat Hwf (_ & cats' & Hstat' & ->)%discover_roles_ok Hx.
  apply (proj1 (sorted_elem _ x)) in Hx.
  rewrite Hstat in Hstat'. injection Hstat' as <-.
  destruct (unit_resolves self w cats Hstat Hwf x Hx)
    as (anc & d & Hd & Hdir & Hm & Hbelow).
  split; [by exists d|].
  destruct marker_names_ok as [Hmol Hdef].
  assert (role_path self x
          = PurePath.mk (PurePath.anchored (role_path self x))
              (PurePath.parts (role_path self x) ++ [])) as ->.
  { destruct (role_path self x). simpl. by rewrite (right_id_L [] (++)). }
  rewrite (div_parts _ _ _ Hmol), (div_parts _ _ _ Hdef). simpl.
  unfold FS.exists_. rewrite Hbelow.
  by destruct (walk_marker anc d Hm) as [n ->].
Qed.

Lemma discovered_unit_has_marker_witness :
  (∃ d, FS.stat demo_fs ["srv"; "repo"]
          (role_path (demo_self false) "net/ssh/hardened") = inr d
        ∧ FS.is_dir d = true ∧ has_marker d = true)
  ∧ FS.exists_ demo_fs ["srv"; "repo"]
      (role_path (demo_self false) "net/ssh/hardened" // "molecule" // "default")
    = true.
Proof.
  apply (discovered_unit_has_marker (demo_self false) (demo_world demo_fs)
           net_roles ["net/ssh/hardened"] (demo_world demo_fs)
           "net/ssh/hardened"); try reflexivity.
  left.
Defined.

(** X2. Over a well-formed tree every discovered identifier has two or three
    segments between slashes, none of them empty. *)
Theorem discovered_unit_segments self w cats roles w' x :
  FS.stat (fs w) (cwd w) (roles_dir self) = inr (Dir cats) →
  FS.wf (Dir cats) = true →
  discover_roles self w = (Ok roles, w') →
  x ∈ roles →
  (length (str_split slash x) = 2 ∨ length (str_split slash x) = 3)
  ∧ Forall (λ p, p ≠ "") (str_split slash x).
Proof.
  intros Hstat Hwf (_ & cats' & Hstat' & ->)%discover_roles_ok Hx.
  apply (proj1 (sorted_elem _ x)) in Hx.
  rewrite Hstat in Hstat'. injection Hstat' as <-.
  destruct (wf_Dir _ Hwf) as [_ Hsub].
  assert (∀ es k n, FS.wf (Dir es) = true → (k, n) ∈ es →
                    slash_free k ∧ k ≠ "") as Hname.
  { intros es k n Hes Hin.
    by apply (wf_Dir_names _ _ _ Hes), name_ok_facts in Hin as (? & _ & _ & ?). }
  apply category_ids_elem in Hx
    as [(c & rs & r & d & Hc & _ & Hr & _ & _ & ->)
       |(c & rs & r & subs & s & d & Hc & _ & Hr & _ & Hs & _ & _ & ->)].
  - destruct (Hsub _ _ Hc) as [_ Hwfc].
    destruct (Hname _ _ _ Hwf Hc) as [Hc1 Hc2].
    destruct (Hname _ _ _ Hwfc Hr) as [Hr1 Hr2].
    rewrite str_split_name, str_split_slash_free by done.
    split; [by left|]. by repeat constructor.
  - destruct (Hsub _ _ Hc) as [_ Hwfc].
    destruct (wf_Dir _ Hwfc) as [_ Hsubc].
    destruct (Hsubc _ _ Hr) as [_ Hwfr].
    destruct (Hname _ _ _ Hwf Hc) as [Hc1 Hc2].
    destruct (Hname _ _ _ Hwfc Hr) as [Hr1 Hr2].
    destruct (Hname _ _ _ Hwfr Hs) as [Hs1 Hs2].
    rewrite !str_split_name, str_split_slash_free by done.
    split; [by right|]. by repeat constructor.
Qed.

Lemma discovered_unit_segments_witness :
  (length (str_split slash "net/ssh/hardened") = 2
   ∨ length (str_split slash "net/ssh/hardened") = 3)
  ∧ Forall (λ p, p ≠ "") (str_split slash "net/ssh/hardened").
Proof.
  apply (discovered_unit_segments (demo_self false) (demo_world demo_fs)
           net_roles ["net/ssh/hardened"] (demo_world demo_fs)
           "net/ssh/hardened"); try reflexivity.
  left.
Defined.

Lemma prefix_empty s : String.prefix "" s = true.
Proof. by destruct s. Qed.

Lemma not_hidden_id c t :
  hidden c = false → hidden (c +:+ "/" +:+ t) = false.
Proof.
  unfold hidden. destruct c as [|a c]; [done|].
  rewrite str_append_cons, !prefix_cons.
  destruct (ascii_dec "." a); [by rewrite !prefix_empty|done].
Qed.

(** X3. [discover_roles] never returns an identifier that starts with a dot:
    nothing below a hidden category is discovered, whatever it holds. *)
Theorem discovered_unit_not_hidden self w roles w' x :
  discover_roles self w = (Ok roles, w') →
  x ∈ roles →
  hidden x = false.
Proof.
  intros (_ & cats & _ & ->)%discover_roles_ok Hx.
  apply (proj1 (sorted_elem _ x)) in Hx.
  apply category_ids_elem in Hx
    as [(c & rs & r & d & _ & Hh & _ & _ & _ & ->)
       |(c & rs & r & subs & s & d & _ & Hh & _ & _ & _ & _ & _ & ->)];
    by apply not_hidden_id.
Qed.

Lemma discovered_unit_not_hidden_witness : hidden "net/ssh/hardened" = false.
Proof.
  apply (discovered_unit_not_hidden (demo_self false) (demo_world demo_fs)
           ["net/ssh/hardened"] (demo_world demo_fs) "net/ssh/hardened");
    [reflexivity|left].
Defined.

(** X4. The result of [discover_roles] depends only on which units are
    recorded, not on the order in which the operating system lists the
    directories: two well-formed trees that record the same identifiers give
    the same list. *)
Theorem discover_roles_listing_order self w cats self' w' cats' :
  FS.stat (fs w) (cwd w) (roles_dir self) = inr (Dir cats) →
  FS.stat (fs w') (cwd w') (roles_dir self') = inr (Dir cats') →
  FS.wf (Dir cats) = true →
  FS.wf (Dir cats') = true →
  (∀ x, unit_recorded cats x ∨ subunit_recorded cats x
        ↔ unit_recorded cats' x ∨ subunit_recorded cats' x) →
  (discover_roles self w).1 = (discover_roles self' w').1.
Proof.
  intros Hstat Hstat' Hwf Hwf' Hsame.
  unfold discover_roles, iterdir. munfold. rewrite Hstat, Hstat'. simpl.
  f_equal. unfold sorted.
  apply (Sorted_unique String.le); try apply Sorted_merge_sort; try apply _.
  rewrite !merge_sort_Permutation.
  apply NoDup_Permutation; try by apply category_ids_NoDup.
  intros x. by rewrite !category_ids_elem.
Qed.

Lemma discover_roles_listing_order_witness :
  (discover_roles (demo_self false) (demo_world two_fs)).1
  = (discover_roles (CIPipeline_init (PurePath.mk true []) false false)
       (mkWorld (Dir [("roles", Dir two_roles_listed_otherwise)]) [] ∅ 0 [])).1.
Proof.
  apply (discover_roles_listing_order _ _ two_roles _ _
           two_roles_listed_otherwise); try reflexivity.
  intros x. rewrite <- !category_ids_elem.
  change (x ∈ ["net/ssh/hardened"; "web/nginx"; "web/apache"]
          ↔ x ∈ ["web/nginx"; "web/apache"; "net/ssh/hardened"]).
  rewrite !elem_of_cons, !elem_of_nil. tauto.
Defined.

(** *** What a run does to the world *)

Lemma keeps_ret {A} (R : World → World → Prop) `{!Reflexive R} (a : A) :
  keeps R (mret a : M A).
Proof. intros w. munfold. done. Qed.

Lemma keeps_raise {A} (R : World → World → Prop) `{!Reflexive R} e :
  keeps R (raise e : M A).
Proof. intros w. done. Qed.

Lemma keeps_bind {A B} (R : World → World → Prop) `{!Transitive R}
    (m : M A) (k : A → M B) :
  keeps R m → (∀ a, keeps R (k a)) → keeps R (m ≫= k).
Proof.
  intros Hm Hk w. specialize (Hm w). munfold.
  destruct (m w) as [[a|e] w1]; simpl in *; [|done].
  etrans; [exact Hm|apply Hk].
Qed.

Lemma keeps_for_each {A B} (R : World → World → Prop) `{!PreOrder R}
    (f : A → M B) l :
  (∀ x, keeps R (f x)) → keeps R (for_each f l).
Proof.
  intros Hf. induction l as [|x l IH]; simpl.
  - apply (keeps_ret R).
  - apply (keeps_bind R); [apply Hf|]. intros y.
    apply (keeps_bind R); [apply IH|]. intros ys. apply (keeps_ret R).
Qed.

Lemma keeps_run_tasks {A} (R : World → World → Prop) `{!PreOrder R}
    (ts : list (M A)) :
  Forall (keeps R) ts → ∀ w, R w (run_tasks ts w).2.
Proof.
  induction 1 as [|t ts Ht _ IH]; intros w; simpl; [done|].
  specialize (Ht w). destruct (t w) as [r w1]. specialize (IH w1).
  destruct (run_tasks ts w1) as [rs w2]. simpl in *. by etrans.
Qed.

Lemma keeps_iterdir (R : World → World → Prop) `{!Reflexive R} p :
  keeps R (iterdir p).
Proof.
  intros w. unfold iterdir. by destruct (FS.stat _ _ _) as [[|]|[|]].
Qed.

Lemma keeps_discover_roles (R : World → World → Prop) `{!PreOrder R} self :
  keeps R (discover_roles self).
Proof.
  unfold discover_roles. apply (keeps_bind R); [apply (keeps_iterdir R)|].
  intros cats. apply (keeps_ret R).
Qed.

Section WorldRelation.

Variable os_exec : Spawn → node → ProcOutcome * node.
Variable wall : nat → float.
Variable isoformat : float → string.
Variable completion : World → list string → list string.
Variable self : CIPipeline.

Variable R : World → World → Prop.
Context `{!PreOrder R}.
Hypothesis R_tick : ∀ w, R w (tick w).
Hypothesis R_command :
  ∀ cmd cwd_arg env, keeps R (run_command os_exec self cmd cwd_arg env).

Lemma keeps_time_time : keeps R (time_time wall).
Proof. intros w. apply R_tick. Qed.

Lemma keeps_run_lint role_arg : keeps R (run_lint os_exec wall self role_arg).
Proof.
  unfold run_lint.
  apply (keeps_bind R); [apply keeps_time_time|]. intros start.
  apply (keeps_bind R); [apply R_command|]. intros [[rc1 o1] e1].
  apply (keeps_bind R); [apply R_command|]. intros [[rc2 o2] e2].
  destruct (negb (rc2 =? 0)%Z);
    (apply (keeps_bind R); [apply keeps_time_time|]);
    intros stop; apply (keeps_ret R).
Qed.

Lemma keeps_run_syntax role_arg :
  keeps R (run_syntax os_exec wall self role_arg).
Proof.
  unfold run_syntax. cbv zeta.
  apply (keeps_bind R); [apply keeps_time_time|]. intros start.
  assert (∀ cmd name,
    keeps R ('(returncode, stdout, stderr) ← run_command os_exec self cmd None None;
             stop ← time_time wall;
             mret (mkStageResult name
                     (if (returncode =? 0)%Z then PASSED else FAILED)
                     (stop - start)%float stdout stderr cmd
                     (str_or role_arg "all")))) as Hfinish.
  { intros cmd name.
    apply (keeps_bind R); [apply R_command|]. intros [[rc o] e].
    apply (keeps_bind R); [apply keeps_time_time|]. intros stop.
    apply (keeps_ret R). }
  destruct (truthy role_arg); [|apply Hfinish].
  apply (keeps_bind R); [by intros w|]. intros [|]; [apply Hfinish|].
  apply (keeps_ret R).
Qed.

Lemma keeps_run_molecule r scenario :
  keeps R (run_molecule os_exec wall self r scenario).
Proof.
  unfold run_molecule.
  apply (keeps_bind R); [apply keeps_time_time|]. intros start.
  apply (keeps_bind R); [apply R_command|]. intros [[rc o] e].
  apply (keeps_bind R); [apply keeps_time_time|]. intros stop.
  apply (keeps_ret R).
Qed.

Lemma keeps_thread_pool parallel (task : string → M StageResult) roles :
  (∀ r, keeps R (task r)) →
  keeps R (thread_pool completion parallel task roles).
Proof.
  intros Ht w. unfold thread_pool. destruct (parallel <=? 0)%Z; [done|].
  pose proof (keeps_run_tasks R (task <$> completion w roles)) as Hrun.
  destruct (run_tasks _ w) as [rs w1] eqn:E. simpl.
  specialize (Hrun ltac:(apply Forall_fmap, Forall_forall; intros; apply Ht) w).
  by rewrite E in Hrun.
Qed.

Lemma keeps_run_one_stage stage role_arg parallel :
  keeps R (run_one_stage os_exec wall completion self stage role_arg parallel).
Proof.
  unfold run_one_stage.
  assert (∀ m : M StageResult, keeps R m → keeps R (r ← m; mret [r])) as Hone.
  { intros m Hm. apply (keeps_bind R); [exact Hm|].
    intros r. apply (keeps_ret R). }
  assert (∀ k : list string → M (list StageResult),
            (∀ roles, keeps R (k roles)) →
            keeps R (discover_roles self ≫= k)) as Hall.
  { intros k Hk. apply (keeps_bind R); [apply (keeps_discover_roles R)|].
    exact Hk. }
  repeat case_match.
  - apply Hone, keeps_run_lint.
  - apply Hall. intros roles. apply keeps_thread_pool. intros r.
    apply keeps_run_lint.
  - apply Hone, keeps_run_syntax.
  - apply Hall. intros roles. apply keeps_thread_pool. intros r.
    apply keeps_run_syntax.
  - apply Hone, keeps_run_molecule.
  - apply Hall. intros roles. apply (keeps_for_each R). intros r.
    apply keeps_run_molecule.
  - apply (keeps_ret R).
Qed.

Lemma keeps_all_stages todo role_arg parallel results :
  keeps R (all_stages os_exec wall completion self todo role_arg parallel results).
Proof.
  revert results. induction todo as [|s todo IH]; intros results; simpl.
  - apply (keeps_ret R).
  - apply (keeps_bind R); [apply keeps_run_one_stage|]. intros l.
    simpl. destruct (any_failed l); [apply (keeps_ret R)|apply IH].
Qed.

Lemma keeps_run_stage stage role_arg parallel :
  keeps R (run_stage os_exec wall completion self stage role_arg parallel).
Proof.
  unfold run_stage. destruct (String.eqb stage "all").
  - apply keeps_all_stages.
  - apply keeps_run_one_stage.
Qed.

Lemma keeps_main_run results stage role_arg parallel :
  keeps R (main_run os_exec wall isoformat completion self results stage
             role_arg parallel).
Proof.
  unfold main_run, datetime_now_isoformat.
  apply (keeps_bind R); [apply keeps_time_time|]. intros start.
  apply (keeps_bind R); [apply keeps_run_stage|]. intros l.
  apply (keeps_bind R); [ |].
  { apply (keeps_bind R); [apply keeps_time_time|]. intros t.
    apply (keeps_ret R). }
  intros finished.
  apply (keeps_bind R); [apply keeps_time_time|]. intros stop.
  apply (keeps_ret R).
Qed.

End WorldRelation.

#[local] Instance frame_preorder : PreOrder frame.
Proof.
  split.
  - intros w. unfold frame. done.
  - intros w1 w2 w3 (He1 & Hc1 & Hs1 & Ht1) (He2 & Hc2 & Hs2 & Ht2).
    unfold frame. split; [congruence|]. split; [congruence|].
    split; [by etrans|lia].
Qed.

#[local] Instance quiet_preorder : PreOrder quiet.
Proof.
  split.
  - intros w. by unfold quiet.
  - intros w1 w2 w3 [Hf1 Hs1] [Hf2 Hs2]. unfold quiet. split; congruence.
Qed.

Lemma frame_tick w : frame w (tick w).
Proof. unfold frame. simpl. repeat split; [done|lia]. Qed.

Lemma quiet_tick w : quiet w (tick w).
Proof. done. Qed.

Lemma frame_run_command os_exec self cmd cwd_arg env :
  keeps frame (run_command os_exec self cmd cwd_arg env).
Proof.
  intros w. destruct (dry_run self) eqn:Hd.
  - by rewrite run_command_dry.
  - destruct (run_command_live os_exec self cmd cwd_arg env w Hd) as [t ->].
    unfold frame. simpl. repeat split; [by apply prefix_app_r|done].
Qed.

Lemma quiet_run_command os_exec self cmd cwd_arg env :
  dry_run self = true →
  keeps quiet (run_command os_exec self cmd cwd_arg env).
Proof. intros Hd w. by rewrite run_command_dry. Qed.

(** X5. Whatever the stage, the unit, the parallelism and the behaviour of
    the commands, a run never changes the environment or the working
    directory of the process, never loses a process from the record of those
    started, and never turns the clock count back; the same holds for the
    whole of [main]'s run. *)
Theorem run_keeps_frame os_exec wall isoformat completion self results stage
    role_arg parallel w :
  frame w (run_stage os_exec wall completion self stage role_arg parallel w).2
  ∧ frame w (main_run os_exec wall isoformat completion self results stage
               role_arg parallel w).2.
Proof.
  split.
  - apply (keeps_run_stage os_exec wall completion self frame);
      [apply frame_tick|apply frame_run_command].
  - apply (keeps_main_run os_exec wall isoformat completion self frame);
      [apply frame_tick|apply frame_run_command].
Qed.



(** *** The command executor, continued *)

(** X7. The environment a command is started with is the ambient one
    overlaid with [env]: a variable of [env] has the value [env] gives it,
    any other variable has its ambient value, and without [env] (or with an
    empty one) the environment is the ambient one. *)
Theorem spawn_of_env self cmd cwd_arg env w k :
  sp_env (spawn_of self cmd cwd_arg env w) !! k
  = match env with
    | Some e =>
        match e !! k with
        | Some v => Some v
        | None => environ w !! k
        end
    | None => environ w !! k
    end.
Proof.
  unfold spawn_of. simpl. destruct env as [e|]; [|done].
  case_bool_decide as He.
  - subst e. by rewrite lookup_empty.
  - destruct (e !! k) as [v|] eqn:Hk.
    + by apply lookup_union_Some_l.
    + by apply lookup_union_r.
Qed.

(** X8. Outside dry-run mode [run_command] starts exactly one process: the
    given command, in [cwd] or else the project root, with a timeout of 600
    seconds. The world goes on with the file system that process left; the
    environment, the working directory and the clock are untouched. *)
Theorem run_command_starts_one os_exec self cmd cwd_arg env w :
  dry_run self = false →
  let sp := spawn_of self cmd cwd_arg env w in
  let w' := (run_command os_exec self cmd cwd_arg env w).2 in
  spawned w' = (spawned w ++ [sp])%list
  ∧ sp_command sp = cmd
  ∧ sp_cwd sp = default (project_root self) cwd_arg
  ∧ sp_timeout sp = 600%Z
  ∧ fs w' = (os_exec sp (fs w)).2
  ∧ environ w' = environ w ∧ cwd w' = cwd w ∧ ticks w' = ticks w.
Proof.
  intros Hd sp w'. unfold w'.
  destruct (run_command_live os_exec self cmd cwd_arg env w Hd) as [t ->].
  done.
Qed.

Lemma run_command_starts_one_witness :
  spawned (run_command exec_succeeds (demo_self false) "true" None None
             (demo_world demo_fs)).2
  = [mkSpawn "true" demo_root ∅ 600].
Proof.
  apply (run_command_starts_one exec_succeeds (demo_self false) "true" None
           None (demo_world demo_fs)). reflexivity.
Defined.

(** *** The stage runners, continued *)

Section RunnerProcesses.

Variable os_exec : Spawn → node → ProcOutcome * node.
Variable wall : nat → float.
Variable self : CIPipeline.
Hypothesis live : dry_run self = false.

(** A live command, with the process it starts made explicit. *)
Lemma run_command_spawn cmd cwd_arg w :
  ∃ t w', run_command os_exec self cmd cwd_arg None w = (Ok t, w')
          ∧ spawned w' = (spawned w ++ [mkSpawn cmd (default (project_root self) cwd_arg)
                                          (environ w) 600])%list
          ∧ environ w' = environ w ∧ ticks w' = ticks w.
Proof.
  destruct (run_command_live os_exec self cmd cwd_arg None w live) as [t Ht].
  eexists t, _. split; [exact Ht|]. done.
Qed.

End RunnerProcesses.

(** X9. Outside dry-run mode [run_lint] starts exactly two processes, first
    [yamllint] and then [ansible-lint], both in the project root with the
    ambient environment; the second linter runs whether or not the first
    one failed. *)
Theorem run_lint_processes os_exec wall self role_arg w :
  dry_run self = false →
  ∃ res w',
    run_lint os_exec wall self role_arg w = (Ok res, w')
    ∧ spawned w'
      = (spawned w
         ++ [mkSpawn (yamllint_cmd self role_arg) (project_root self) (environ w) 600;
             mkSpawn (ansible_lint_cmd self role_arg) (project_root self) (environ w) 600])%list.
Proof.
  intros Hd.
  destruct (run_command_spawn os_exec self Hd (yamllint_cmd self role_arg) None
              (tick w)) as ([[rc1 o1] e1] & w2 & H1 & Hs1 & He1 & _).
  destruct (run_command_spawn os_exec self Hd (ansible_lint_cmd self role_arg)
              None w2) as ([[rc2 o2] e2] & w3 & H2 & Hs2 & _).
  eexists _, _. split; [by eapply run_lint_unfold|].
  simpl. rewrite Hs2, Hs1, He1. simpl. by rewrite <- (assoc_L (++)).
Qed.

Lemma run_lint_processes_witness :
  ∃ res w',
    run_lint exec_yamllint_fails demo_wall (demo_self false) None
      (demo_world demo_fs) = (Ok res, w')
    ∧ spawned w'
      = [mkSpawn "yamllint -c .yamllint.yml roles/" demo_root ∅ 600;
         mkSpawn "ansible-lint roles/" demo_root ∅ 600].
Proof.
  apply (run_lint_processes exec_yamllint_fails demo_wall (demo_self false)
           None (demo_world demo_fs)). reflexivity.
Defined.

(** X10. Outside dry-run mode [run_syntax] starts exactly one process when it
    does not skip: the syntax check of the unit's [converge.yml], or the
    [find] over [playbooks] when no unit is given, in the project root. *)
Theorem run_syntax_process os_exec wall self role_arg w :
  dry_run self = false →
  syntax_skips self role_arg w = false →
  ∃ res w',
    run_syntax os_exec wall self role_arg w = (Ok res, w')
    ∧ command res = syntax_cmd self role_arg
    ∧ spawned w'
      = (spawned w
         ++ [mkSpawn (syntax_cmd self role_arg) (project_root self) (environ w) 600])%list.
Proof.
  intros Hd Hs.
  destruct (run_command_spawn os_exec self Hd (syntax_cmd self role_arg) None
              (tick w)) as ([[rc o] e] & w2 & H & Hsp & _).
  eexists _, _. split; [by eapply run_syntax_runs|].
  split; [done|]. simpl. by rewrite Hsp.
Qed.

Lemma run_syntax_process_witness :
  ∃ res w',
    run_syntax exec_succeeds demo_wall (demo_self false) (Some "web/apache")
      (demo_world two_fs) = (Ok res, w')
    ∧ command res
      = "ansible-playbook --syntax-check /srv/repo/roles/web/apache/molecule/default/converge.yml"
    ∧ spawned w'
      = [mkSpawn "ansible-playbook --syntax-check /srv/repo/roles/web/apache/molecule/default/converge.yml"
           demo_root ∅ 600].
Proof.
  apply (run_syntax_process exec_succeeds demo_wall (demo_self false)
           (Some "web/apache") (demo_world two_fs)); reflexivity.
Defined.

(** X11. Outside dry-run mode [run_molecule] starts exactly one process,
    [molecule test -s <scenario>], and starts it in the directory of the
    unit, not in the project root. *)
Theorem run_molecule_process os_exec wall self r scenario w :
  dry_run self = false →
  ∃ res w',
    run_molecule os_exec wall self r scenario w = (Ok res, w')
    ∧ spawned w'
      = (spawned w
         ++ [mkSpawn ("molecule test -s " +:+ scenario) (role_path self r)
               (environ w) 600])%list.
Proof.
  intros Hd.
  destruct (run_command_spawn os_exec self Hd ("molecule test -s " +:+ scenario)
              (Some (role_path self r)) (tick w))
    as ([[rc o] e] & w2 & H & Hsp & _).
  eexists _, _. split; [by eapply run_molecule_unfold|].
  simpl. by rewrite Hsp.
Qed.

Lemma run_molecule_process_witness :
  ∃ res w',
    run_molecule exec_succeeds demo_wall (demo_self false) "web/nginx" "default"
      (demo_world two_fs) = (Ok res, w')
    ∧ spawned w'
      = [mkSpawn "molecule test -s default"
           (PurePath.mk true ["srv"; "repo"; "roles"; "web"; "nginx"]) ∅ 600].
Proof.
  apply (run_molecule_process exec_succeeds demo_wall (demo_self false)
           "web/nginx" "default" (demo_world two_fs)). reflexivity.
Defined.

(** *** The scheduler, continued *)

Lemma truthy_str_or role_arg d :
  truthy role_arg = true → str_or role_arg d = default "" role_arg.
Proof.
  destruct role_arg as [r|]; [|done]. simpl.
  by destruct (String.eqb r "").
Qed.

Lemma truthy_Some r : r ≠ "" → truthy (Some r) = true.
Proof. intros Hr%String.eqb_neq. simpl. by rewrite Hr. Qed.

Section RunnersReturn.

Variable os_exec : Spawn → node → ProcOutcome * node.
Variable wall : nat → float.
Variable self : CIPipeline.

Lemma run_lint_returns role_arg w :
  ∃ res w', run_lint os_exec wall self role_arg w = (Ok res, w')
            ∧ role res = str_or role_arg "all".
Proof.
  destruct (run_command_returns os_exec self (yamllint_cmd self role_arg)
              None None (tick w)) as ([[rc1 o1] e1] & w2 & H1).
  destruct (run_command_returns os_exec self (ansible_lint_cmd self role_arg)
              None None w2) as ([[rc2 o2] e2] & w3 & H2).
  eexists _, _. split; [by eapply run_lint_unfold|done].
Qed.

Lemma run_syntax_returns role_arg w :
  ∃ res w', run_syntax os_exec wall self role_arg w = (Ok res, w')
            ∧ role res = str_or role_arg "all".
Proof.
  destruct (syntax_skips self role_arg w) eqn:Hs.
  - eexists _, _. split; [by apply run_syntax_skips|]. simpl.
    apply andb_prop in Hs as [Ht _]. by rewrite truthy_str_or.
  - destruct (run_command_returns os_exec self (syntax_cmd self role_arg)
                None None (tick w)) as ([[rc o] e] & w2 & H).
    eexists _, _. split; [by eapply run_syntax_runs|done].
Qed.

Lemma run_molecule_returns r scenario w :
  ∃ res w', run_molecule os_exec wall self r scenario w = (Ok res, w')
            ∧ role res = r.
Proof.
  destruct (run_command_returns os_exec self ("molecule test -s " +:+ scenario)
              (Some (role_path self r)) None (tick w)) as ([[rc o] e] & w2 & H).
  eexists _, _. split; [by eapply run_molecule_unfold|done].
Qed.

End RunnersReturn.

(** Tasks that always return: what the pool and the loop then return. *)
Lemma run_tasks_return {A} (P : string → Prop) (Q : string → A → Prop)
    (task : string → M A) :
  (∀ r w, P r → ∃ a w', task r w = (Ok a, w') ∧ Q r a) →
  ∀ rs w, Forall P rs →
    ∃ l, gather (run_tasks (task <$> rs) w).1 = Ok l ∧ Forall2 Q rs l.
Proof.
  intros Htask rs. induction rs as [|r rs IH]; intros w Hrs.
  - exists []. by split; [|constructor].
  - apply Forall_cons in Hrs as [Hr Hrs].
    destruct (Htask r w Hr) as (a & w1 & Ha & Hq).
    destruct (IH w1 Hrs) as (l & Hl & HQ).
    exists (a :: l). split; [|by constructor].
    rewrite fmap_cons. cbn [run_tasks]. rewrite Ha.
    destruct (run_tasks (task <$> rs) w1) as [rest w2]. simpl in *.
    by rewrite Hl.
Qed.

Lemma for_each_return {A} (P : string → Prop) (Q : string → A → Prop)
    (task : string → M A) :
  (∀ r w, P r → ∃ a w', task r w = (Ok a, w') ∧ Q r a) →
  ∀ rs w, Forall P rs →
    ∃ l w', for_each task rs w = (Ok l, w') ∧ Forall2 Q rs l.
Proof.
  intros Htask rs. induction rs as [|r rs IH]; intros w Hrs; simpl.
  - exists [], w. by split; [|constructor].
  - apply Forall_cons in Hrs as [Hr Hrs].
    destruct (Htask r w Hr) as (a & w1 & Ha & Hq).
    destruct (IH w1 Hrs) as (l & w2 & Hl & HQ).
    exists (a :: l), w2. split; [|by constructor].
    munfold. by rewrite Ha, Hl.
Qed.

Lemma roles_of_results (rs : list string) (l : list StageResult) :
  Forall2 (λ r res, role res = r) rs l → role <$> l = rs.
Proof.
  induction 1 as [|r res rs l Hr _ IH]; [done|].
  by rewrite fmap_cons, Hr, IH.
Qed.

Lemma unit_id_not_empty c t : c +:+ "/" +:+ t ≠ "".
Proof. by destruct c. Qed.

Lemma discovered_not_empty self w roles w' :
  discover_roles self w = (Ok roles, w') → Forall (λ r, r ≠ "") roles.
Proof.
  intros (_ & cats & _ & ->)%discover_roles_ok. apply Forall_forall.
  intros x Hx. apply (proj1 (sorted_elem _ x)) in Hx.
  apply category_ids_elem in Hx
    as [(c & rs & r & d & _ & _ & _ & _ & _ & ->)
       |(c & rs & r & subs & s & d & _ & _ & _ & _ & _ & _ & _ & ->)];
    apply unit_id_not_empty.
Qed.

Lemma raises_in_ret {A} (E : PyExc → Prop) (a : A) : raises_in E (mret a : M A).
Proof. intros w e w'. munfold. done. Qed.

Lemma raises_in_bind {A B} (E : PyExc → Prop) (m : M A) (k : A → M B) :
  raises_in E m → (∀ a, raises_in E (k a)) → raises_in E (m ≫= k).
Proof.
  intros Hm Hk w e w'. munfold. destruct (m w) as [[a|e1] w1] eqn:Em.
  - apply Hk.
  - intros [= <- _]. by eapply Hm.
Qed.

(** A computation that always returns never raises. *)
Lemma raises_in_returns {A} (E : PyExc → Prop) (m : M A) :
  (∀ w, ∃ a w', m w = (Ok a, w')) → raises_in E m.
Proof. intros Hm w e w'. by destruct (Hm w) as (a & w1 & ->). Qed.

Lemma raises_in_discover_roles self parallel :
  raises_in (stage_error parallel) (discover_roles self).
Proof.
  intros w e w'. unfold discover_roles, iterdir, stage_error. munfold.
  destruct (FS.stat _ _ _) as [[|]|[|cats]]; intros [= <- _]; auto.
Qed.

Section StageOutcomes.

Variable os_exec : Spawn → node → ProcOutcome * node.
Variable wall : nat → float.
Variable completion : World → list string → list string.
Variable self : CIPipeline.

Lemma raises_in_thread_pool parallel (task : string → M StageResult) roles :
  (∀ r w, ∃ a w', task r w = (Ok a, w')) →
  raises_in (stage_error parallel) (thread_pool completion parallel task roles).
Proof.
  intros Htask w e w'. unfold thread_pool.
  destruct (Z.leb_spec parallel 0) as [Hp|Hp].
  - intros [= <- _]. right. right. done.
  - destruct (run_tasks_return (λ _, True) (λ _ _, True) task) with
      (rs := completion w roles) (w := w) as (l & Hl & _).
    { intros r w0 _. destruct (Htask r w0) as (a & w1 & ->). by eexists _, _. }
    { by apply Forall_true. }
    destruct (run_tasks _ w) as [rs w1]. simpl in Hl. by rewrite Hl.
Qed.

Lemma raises_in_run_one_stage stage role_arg parallel :
  raises_in (λ e, truthy role_arg = false ∧ stage_error parallel e)
    (run_one_stage os_exec wall completion self stage role_arg parallel).
Proof.
  unfold run_one_stage.
  assert (∀ E (m : M StageResult),
            (∀ w, ∃ a w', m w = (Ok a, w')) →
            raises_in E (r ← m; mret [r])) as Hone.
  { intros E m Hm. apply raises_in_bind; [by apply raises_in_returns|].
    intros r. apply raises_in_ret. }
  assert (∀ k : list string → M (list StageResult),
            (∀ roles, raises_in (stage_error parallel) (k roles)) →
            raises_in (stage_error parallel) (discover_roles self ≫= k)) as Hall.
  { intros k Hk. apply raises_in_bind; [apply raises_in_discover_roles|done]. }
  destruct (truthy role_arg) eqn:Ht.
  - repeat case_match; try apply Hone; try apply raises_in_ret.
    + intros w. destruct (run_lint_returns os_exec wall self role_arg w)
        as (a & w1 & -> & _). by eexists _, _.
    + intros w. destruct (run_syntax_returns os_exec wall self role_arg w)
        as (a & w1 & -> & _). by eexists _, _.
    + intros w. destruct (run_molecule_returns os_exec wall self
                            (default "" role_arg) "default" w)
        as (a & w1 & -> & _). by eexists _, _.
  - intros w e w' Hraise. split; [done|]. revert w e w' Hraise.
    repeat case_match; try apply Hall; try apply raises_in_ret; intros roles.
    + apply raises_in_thread_pool. intros r w.
      destruct (run_lint_returns os_exec wall self (Some r) w)
        as (a & w1 & -> & _). by eexists _, _.
    + apply raises_in_thread_pool. intros r w.
      destruct (run_syntax_returns os_exec wall self (Some r) w)
        as (a & w1 & -> & _). by eexists _, _.
    + intros w e w' Hraise.
      destruct (for_each_return (λ _, True) (λ _ _, True)
                  (λ r, run_molecule os_exec wall self r "default"))
        with (rs := roles) (w := w) as (l & w1 & Hl & _).
      { intros r w0 _. destruct (run_molecule_returns os_exec wall self r
                                   "default" w0) as (a & w2 & -> & _).
        by eexists _, _. }
      { by apply Forall_true. }
      by rewrite Hl in Hraise.
Qed.

Lemma raises_in_all_stages todo role_arg parallel results :
  raises_in (λ e, truthy role_arg = false ∧ stage_error parallel e)
    (all_stages os_exec wall completion self todo role_arg parallel results).
Proof.
  revert results. induction todo as [|s todo IH]; intros results; simpl.
  - apply raises_in_ret.
  - apply raises_in_bind; [apply raises_in_run_one_stage|]. intros l. simpl.
    destruct (any_failed l); [apply raises_in_ret|apply IH].
Qed.

End StageOutcomes.





(** X14. Without a unit, the [lint] and the [syntax] stage return one result
    per discovered unit, in the order in which the pool's tasks complete,
    provided the parallelism is positive and the pool completes exactly the
    tasks submitted to it. *)
Theorem run_stage_fan_out os_exec wall completion self stage role_arg parallel
    w roles w0 :
  truthy role_arg = false →
  stage = "lint" ∨ stage = "syntax" →
  (0 < parallel)%Z →
  discover_roles self w = (Ok roles, w0) →
  completion w roles ≡ₚ roles →
  ∃ results w',
    run_stage os_exec wall completion self stage role_arg parallel w
      = (Ok results, w')
    ∧ role <$> results = completion w roles
    ∧ length results = length roles.
Proof.
  intros Ht Hstage Hp Hdisc Hperm.
  pose proof (discovered_not_empty _ _ _ _ Hdisc) as Hne.
  rewrite <- Hperm in Hne.
  apply discover_roles_ok in Hdisc as Hw. destruct Hw as [-> _].
  assert (∀ task : string → M StageResult,
    (∀ r w1, r ≠ "" → ∃ a w', task r w1 = (Ok a, w') ∧ role a = r) →
    ∃ results w',
      (discover_roles self ≫= thread_pool completion parallel task) w
        = (Ok results, w')
      ∧ role <$> results = completion w roles
      ∧ length results = length roles) as Hpool.
  { intros task Htask. munfold. rewrite Hdisc. unfold thread_pool.
    destruct (Z.leb_spec parallel 0) as [|_]; [lia|].
    destruct (run_tasks_return _ _ task Htask (completion w roles) w Hne)
      as (l & Hl & HQ).
    destruct (run_tasks _ w) as [rs w1]. simpl in Hl. rewrite Hl.
    exists l, w1. split; [done|].
    apply roles_of_results in HQ as Hroles. split; [done|].
    by rewrite <- (length_fmap role), Hroles, Hperm. }
  unfold run_stage, run_one_stage.
  destruct Hstage as [-> | ->]; simpl; rewrite Ht; apply Hpool; intros r w1 Hr.
  - destruct (run_lint_returns os_exec wall self (Some r) w1)
      as (a & w' & -> & Ha). exists a, w'. split; [done|].
    by rewrite Ha, truthy_str_or by by apply truthy_Some.
  - destruct (run_syntax_returns os_exec wall self (Some r) w1)
      as (a & w' & -> & Ha). exists a, w'. split; [done|].
    by rewrite Ha, truthy_str_or by by apply truthy_Some.
Qed.

Lemma run_stage_fan_out_witness :
  ∃ results w',
    run_stage exec_succeeds demo_wall last_first (demo_self false) "lint" None 4
      (demo_world two_fs) = (Ok results, w')
    ∧ role <$> results = ["web/nginx"; "web/apache"; "net/ssh/hardened"]
    ∧ length results = 3.
Proof.
  apply (run_stage_fan_out exec_succeeds demo_wall last_first (demo_self false)
           "lint" None 4 (demo_world two_fs)
           ["net/ssh/hardened"; "web/apache"; "web/nginx"] (demo_world two_fs));
    [reflexivity|by left|reflexivity|reflexivity|].
  apply (reverse_Permutation ["net/ssh/hardened"; "web/apache"; "web/nginx"]).
Defined.

(** X15. Without a unit, the [molecule] stage returns one result per
    discovered unit in discovery order, one after the other, for every
    value of the parallelism, zero and negative ones included, and without
    consulting the pool. *)
Theorem run_stage_molecule_sequential os_exec wall completion self role_arg
    parallel w roles w0 :
  truthy role_arg = false →
  discover_roles self w = (Ok roles, w0) →
  ∃ results w',
    run_stage os_exec wall completion self "molecule" role_arg parallel w
      = (Ok results, w')
    ∧ role <$> results = roles.
Proof.
  intros Ht Hdisc.
  apply discover_roles_ok in Hdisc as Hw. destruct Hw as [-> _].
  unfold run_stage, run_one_stage. simpl. rewrite Ht. munfold. rewrite Hdisc.
  destruct (for_each_return (λ _, True) (λ r res, role res = r)
              (λ r, run_molecule os_exec wall self r "default"))
    with (rs := roles) (w := w) as (l & w1 & Hl & HQ).
  { intros r w1 _. apply run_molecule_returns. }
  { by apply Forall_true. }
  exists l, w1. split; [done|]. by apply roles_of_results.
Qed.

Lemma run_stage_molecule_sequential_witness :
  ∃ results w',
    run_stage exec_succeeds demo_wall last_first (demo_self false) "molecule"
      None (-1) (demo_world two_fs) = (Ok results, w')
    ∧ role <$> results = ["net/ssh/hardened"; "web/apache"; "web/nginx"].
Proof.
  apply (run_stage_molecule_sequential exec_succeeds demo_wall last_first
           (demo_self false) None (-1) (demo_world two_fs)
           ["net/ssh/hardened"; "web/apache"; "web/nginx"] (demo_world two_fs));
    reflexivity.
Defined.

(** X16. A stage name other than [lint], [syntax], [molecule] and [all]
    yields the empty result list and does nothing at all: no discovery, no
    clock reading, no process. *)
Theorem run_stage_unknown os_exec wall completion self stage role_arg parallel w :
  stage ≠ "lint" → stage ≠ "syntax" → stage ≠ "molecule" → stage ≠ "all" →
  run_stage os_exec wall completion self stage role_arg parallel w = (Ok [], w).
Proof.
  intros H1%String.eqb_neq H2%String.eqb_neq H3%String.eqb_neq H4%String.eqb_neq.
  unfold run_stage, run_one_stage. by rewrite H1, H2, H3, H4.
Qed.

Lemma run_stage_unknown_witness :
  run_stage exec_hangs demo_wall last_first (demo_self false) "unit" None 4
    (demo_world bare_fs) = (Ok [], demo_world bare_fs).
Proof.
  by apply (run_stage_unknown exec_hangs demo_wall last_first (demo_self false)
              "unit" None 4 (demo_world bare_fs)).
Defined.

(** *** Dry runs *)

Section DryRun.

Variable os_exec : Spawn → node → ProcOutcome * node.
Variable wall : nat → float.
Variable completion : World → list string → list string.
Variable self : CIPipeline.
Hypothesis dry : dry_run self = true.

Lemma dry_run_lint role_arg w :
  run_lint os_exec wall self role_arg w
  = (Ok (mkStageResult
           (if truthy role_arg then "lint:" +:+ default "" role_arg else "lint:all")
           PASSED
           (wall (S (ticks w)) - wall (ticks w))%float
           ("[DRY RUN] Would execute: " +:+ yamllint_cmd self role_arg) ""
           (yamllint_cmd self role_arg) (str_or role_arg "all")),
     tick (tick w)).
Proof.
  erewrite run_lint_unfold; [|by apply run_command_dry..]. done.
Qed.

Lemma dry_run_syntax role_arg w :
  syntax_skips self role_arg w = false →
  run_syntax os_exec wall self role_arg w
  = (Ok (mkStageResult
           (if truthy role_arg then "syntax:" +:+ default "" role_arg
            else "syntax:all")
           PASSED
           (wall (S (ticks w)) - wall (ticks w))%float
           ("[DRY RUN] Would execute: " +:+ syntax_cmd self role_arg) ""
           (syntax_cmd self role_arg) (str_or role_arg "all")),
     tick (tick w)).
Proof.
  intros Hs. erewrite run_syntax_runs; [|done|by apply run_command_dry]. done.
Qed.

Lemma dry_run_molecule r scenario w :
  run_molecule os_exec wall self r scenario w
  = (Ok (mkStageResult ("molecule:" +:+ r +:+ ":" +:+ scenario) PASSED
           (wall (S (ticks w)) - wall (ticks w))%float
           ("[DRY RUN] Would execute: molecule test -s " +:+ scenario) ""
           ("molecule test -s " +:+ scenario) r),
     tick (tick w)).
Proof.
  erewrite run_molecule_unfold; [|by apply run_command_dry]. done.
Qed.

Lemma dry_run_syntax_name role_arg w :
  ∃ res w',
    run_syntax os_exec wall self role_arg w = (Ok res, w')
    ∧ name res = (if truthy role_arg then "syntax:" +:+ default "" role_arg
                  else "syntax:all")
    ∧ status res ≠ FAILED.
Proof.
  destruct (syntax_skips self role_arg w) eqn:Hs.
  - eexists _, _. split; [by apply run_syntax_skips|].
    apply andb_prop in Hs as [-> _]. done.
  - eexists _, _. split; [by apply dry_run_syntax|done].
Qed.

End DryRun.

(** X17. In dry-run mode the result of [run_lint] shows the [yamllint]
    command only: its output is the dry-run line of that command, and the
    [ansible-lint] command, though composed, is in no field of the result. *)
Theorem dry_run_lint_shows_first_command os_exec wall self role_arg w :
  dry_run self = true →
  ∃ res w',
    run_lint os_exec wall self role_arg w = (Ok res, w')
    ∧ output res = "[DRY RUN] Would execute: " +:+ yamllint_cmd self role_arg
    ∧ error res = ""
    ∧ command res = yamllint_cmd self role_arg
    ∧ status res = PASSED.
Proof.
  intros Hd. eexists _, _. split; [by apply dry_run_lint|done].
Qed.

Lemma dry_run_lint_shows_first_command_witness :
  ∃ res w',
    run_lint exec_hangs demo_wall (demo_self true) None (demo_world demo_fs)
      = (Ok res, w')
    ∧ output res = "[DRY RUN] Would execute: yamllint -c .yamllint.yml roles/"
    ∧ error res = ""
    ∧ command res = "yamllint -c .yamllint.yml roles/"
    ∧ status res = PASSED.
Proof.
  apply (dry_run_lint_shows_first_command exec_hangs demo_wall (demo_self true)
           None (demo_world demo_fs)). reflexivity.
Defined.

Section AllStages.

Variable os_exec : Spawn → node → ProcOutcome * node.
Variable wall : nat → float.
Variable completion : World → list string → list string.
Variable self : CIPipeline.

(** One turn of the loop of the [all] branch, when the stage has no failure. *)
Lemma all_stages_step s todo role_arg parallel results w l w1 :
  run_one_stage os_exec wall completion self s role_arg parallel w = (Ok l, w1) →
  any_failed l = false →
  all_stages os_exec wall completion self (s :: todo) role_arg parallel results w
  = all_stages os_exec wall completion self todo role_arg parallel
      (results ++ l) w1.
Proof. intros Hs Hl. cbn [all_stages]. munfold. by rewrite Hs, Hl. Qed.

(** The single stages, for a given unit, in terms of their runners. *)
Lemma run_one_stage_unit role_arg parallel w :
  truthy role_arg = true →
  (∀ res w', run_lint os_exec wall self role_arg w = (Ok res, w') →
     run_one_stage os_exec wall completion self "lint" role_arg parallel w
     = (Ok [res], w'))
  ∧ (∀ res w', run_syntax os_exec wall self role_arg w = (Ok res, w') →
       run_one_stage os_exec wall completion self "syntax" role_arg parallel w
       = (Ok [res], w'))
  ∧ (∀ res w',
       run_molecule os_exec wall self (default "" role_arg) "default" w
         = (Ok res, w') →
       run_one_stage os_exec wall completion self "molecule" role_arg parallel w
       = (Ok [res], w')).
Proof.
  intros Ht. unfold run_one_stage.
  change (String.eqb "syntax" "lint") with false.
  change (String.eqb "molecule" "lint") with false.
  change (String.eqb "molecule" "syntax") with false.
  rewrite !String.eqb_refl, Ht. munfold.
  repeat split; intros res w' ->; done.
Qed.

Lemma any_failed_one res : status res ≠ FAILED → any_failed [res] = false.
Proof. intros H. unfold any_failed. simpl. by rewrite bool_decide_eq_false_2. Qed.

End AllStages.



Section StageResultsIn.

Variable os_exec : Spawn → node → ProcOutcome * node.
Variable wall : nat → float.
Variable completion : World → list string → list string.
Variable self : CIPipeline.
Variable P : StageResult → Prop.
Hypothesis lint_in : ∀ role_arg, returns_in P (run_lint os_exec wall self role_arg).
Hypothesis syntax_in :
  ∀ role_arg, returns_in P (run_syntax os_exec wall self role_arg).
Hypothesis molecule_in :
  ∀ r scenario, returns_in P (run_molecule os_exec wall self r scenario).

(** What holds of every result of every runner holds of every result of a
    run. *)
Lemma run_stage_results_in stage role_arg parallel :
  returns_in (Forall P)
    (run_stage os_exec wall completion self stage role_arg parallel).
Proof.
  assert (∀ stage,
    returns_in (Forall P)
      (run_one_stage os_exec wall completion self stage role_arg parallel))
    as Hone_stage.
  { clear stage. intros stage. unfold run_one_stage.
    assert (∀ m : M StageResult,
              returns_in P m → returns_in (Forall P) (r ← m; mret [r])) as Hone.
    { intros m Hm. eapply returns_in_bind; [exact Hm|].
      intros r Hr. apply returns_in_ret. by repeat constructor. }
    assert (∀ k : list string → M (list StageResult),
              (∀ roles, returns_in (Forall P) (k roles)) →
              returns_in (Forall P) (discover_roles self ≫= k)) as Hall.
    { intros k Hk. eapply returns_in_bind with (P := λ _, True); [done|].
      intros roles _. apply Hk. }
    repeat case_match; try apply Hone; try apply Hall; try done.
    - intros roles. apply thread_pool_returns. intros r. apply lint_in.
    - intros roles. apply thread_pool_returns. intros r. apply syntax_in.
    - intros roles. apply for_each_returns. intros r. apply molecule_in.
    - by apply returns_in_ret. }
  unfold run_stage. destruct (String.eqb stage "all"); [|apply Hone_stage].
  assert (∀ todo results, Forall P results →
    returns_in (Forall P)
      (all_stages os_exec wall completion self todo role_arg parallel results))
    as Hloop.
  { induction todo as [|s todo IH]; intros results Hres; simpl.
    - by apply returns_in_ret.
    - eapply returns_in_bind; [apply Hone_stage|]. intros l Hl. simpl.
      assert (Forall P (results ++ l)) by by apply Forall_app.
      destruct (any_failed l); [by apply returns_in_ret|by apply IH]. }
  by apply Hloop.
Qed.

End StageResultsIn.

Lemma count_status_none st l :
  Forall (λ r, status r ≠ st) l → count_status st l = 0.
Proof.
  induction 1 as [|r l Hr _ IH]; [done|].
  rewrite count_status_cons, IH. by destruct (decide (status r = st)).
Qed.

Lemma count_status_some st l r :
  r ∈ l → status r = st → 0 < count_status st l.
Proof.
  intros Hin Hr. induction Hin as [r l|r r' l _ IH];
    rewrite count_status_cons.
  - destruct (decide (status r = st)); [lia|done].
  - specialize (IH Hr). lia.
Qed.

(** X19. A dry run that comes to its end exits with code 0 and the verdict
    ["passed"]: whatever the stage, the unit and the tree, none of its
    results is [FAILED]. *)
Theorem dry_run_exits_zero os_exec wall isoformat completion self results stage
    role_arg parallel w res code w' :
  dry_run self = true →
  main_run os_exec wall isoformat completion self results stage role_arg
    parallel w = (Ok (res, code), w') →
  code = 0%Z
  ∧ overall_status res = "passed"
  ∧ failed res = 0
  ∧ Forall (λ r, status r ≠ FAILED) (stages res).
Proof.
  intros Hd. unfold main_run, datetime_now_isoformat. munfold.
  destruct (run_stage _ _ _ _ _ _ _ (tick w)) as [[l|e] w1] eqn:Hrun; [|done].
  intros [= <- <- _]. simpl.
  assert (Forall (λ r, status r ≠ FAILED) l) as Hl.
  { eapply (run_stage_results_in os_exec wall completion self
              (λ r, status r ≠ FAILED)); [| | |exact Hrun].
    - intros ra w0 r w2. rewrite (dry_run_lint os_exec wall self Hd).
      by intros [= <- _].
    - intros ra w0 r w2 Hr.
      destruct (dry_run_syntax_name os_exec wall self Hd ra w0)
        as (r' & w3 & Hr' & _ & Hs). rewrite Hr' in Hr. by injection Hr as <- _.
    - intros r0 sc w0 r w2. rewrite (dry_run_molecule os_exec wall self Hd).
      by intros [= <- _]. }
  by rewrite (count_status_none _ _ Hl).
Qed.

Lemma dry_run_exits_zero_witness :
  length (stages dry_demo_result) = 9
  ∧ overall_status dry_demo_result = "passed"
  ∧ failed dry_demo_result = 0.
Proof.
  split; [reflexivity|].
  assert (main_run exec_hangs demo_wall (λ _, "2024-01-01T00:00:00") last_first
            (demo_self true) (PipelineResult_new "2024-01-01T00:00:00") "all"
            None 4 (demo_world two_fs)
          = (Ok (dry_demo_result, 0%Z), dry_demo_run.2)) as Hrun
    by (vm_compute; reflexivity).
  pose proof (dry_run_exits_zero exec_hangs demo_wall _ last_first
                (demo_self true) _ _ _ _ _ _ _ _ eq_refl Hrun)
    as (_ & Hstatus & Hfailed & _).
  by split.
Defined.

(** *** The result aggregator, continued *)

(** X20. For any list of results, whatever their statuses, the three counts
    of [print_summary] and the results still [PENDING] or [RUNNING] add up to
    the length of the list: the counts fall short of the total by exactly the
    results that are in no terminal state. *)
Theorem print_summary_accounts res :
  passed (print_summary res) + failed (print_summary res)
  + skipped (print_summary res)
  + count_status PENDING (stages res) + count_status RUNNING (stages res)
  = length (stages res).
Proof.
  unfold print_summary. simpl. induction (stages res) as [|r l IH]; [done|].
  rewrite !count_status_cons. simpl length. rewrite <- IH.
  destruct (status r); simpl; lia.
Qed.

(** X21. The verdict of [print_summary] is ["passed"] exactly when no result
    is [FAILED]: a run without results, or with skipped results only, passes. *)
Theorem print_summary_passes res :
  overall_status (print_summary res) = "passed"
  ↔ Forall (λ r, status r ≠ FAILED) (stages res).
Proof.
  unfold print_summary. simpl. split.
  - intros Hv. apply Forall_forall. intros r Hin Hr.
    pose proof (count_status_some FAILED _ r Hin Hr) as Hpos.
    destruct (Nat.eqb_spec (count_status FAILED (stages res)) 0); [lia|done].
  - intros Hl. by rewrite (count_status_none _ _ Hl).
Qed.

(** *** The report generator, continued *)

Lemma str_take_prefix n s : ∃ rest, s = str_take n s +:+ rest.
Proof.
  revert s. induction n as [|n IH]; intros [|c s]; simpl;
    try by eexists.
  destruct (IH s) as [rest Hrest]. exists rest.
  rewrite str_append_cons. by f_equal.
Qed.

Lemma str_take_length_min n s :
  String.length (str_take n s) = Nat.min n (String.length s).
Proof.
  revert s. induction n as [|n IH]; intros [|c s]; simpl; try done.
  by rewrite IH.
Qed.

(** X22. In the json report the [output] and [error] of a stage are prefixes
    of the stage's streams, as long as the stream or 500 characters,
    whichever is less: a stream of at most 500 characters is reported whole.
    The [status] string tells the status: different statuses have different
    strings. *)
Theorem json_streams_are_prefixes s :
  ∃ o e,
    json_field "output" (json_fields (stage_data s)) = Some (JStr o)
    ∧ json_field "error" (json_fields (stage_data s)) = Some (JStr e)
    ∧ (∃ rest, output s = o +:+ rest)
    ∧ String.length o = Nat.min 500 (String.length (output s))
    ∧ (∃ rest, error s = e +:+ rest)
    ∧ String.length e = Nat.min 500 (String.length (error s))
    ∧ (∀ s', json_field "status" (json_fields (stage_data s))
             = json_field "status" (json_fields (stage_data s')) →
             status s = status s').
Proof.
  exists (str_take 500 (output s)), (str_take 500 (error s)).
  split; [cbn [stage_data json_fields json_field String.eqb Ascii.eqb Bool.eqb];
          by rewrite truncated_field|].
  split; [cbn [stage_data json_fields json_field String.eqb Ascii.eqb Bool.eqb];
          by rewrite truncated_field|].
  split; [apply str_take_prefix|]. split; [apply str_take_length_min|].
  split; [apply str_take_prefix|]. split; [apply str_take_length_min|].
  intros s'.
  cbn [stage_data json_fields json_field String.eqb Ascii.eqb Bool.eqb].
  destruct (status s), (status s'); by intros [=].
Qed.

(** *** Verdicts and edge cases of the stages *)

(** X23. Outside dry-run mode the result of [run_molecule] is [PASSED]
    exactly when the command completes with exit code 0. A command that runs
    into the timeout, or cannot be run at all, gives a [FAILED] result with
    empty output whose error text is the timeout message, or the description
    of the failure. *)
Theorem run_molecule_verdict os_exec wall self r scenario w :
  dry_run self = false →
  let sp := mkSpawn ("molecule test -s " +:+ scenario) (role_path self r)
              (environ w) 600 in
  ∃ res w',
    run_molecule os_exec wall self r scenario w = (Ok res, w')
    ∧ (status res = PASSED
       ↔ ∃ out err, (os_exec sp (fs w)).1 = Completed 0 out err)
    ∧ ((os_exec sp (fs w)).1 = TimeoutExpired →
       status res = FAILED ∧ output res = ""
       ∧ error res = "Command timed out after 600 seconds")
    ∧ (∀ e, (os_exec sp (fs w)).1 = OtherException e →
            status res = FAILED ∧ output res = "" ∧ error res = e).
Proof.
  intros Hd sp.
  assert (∃ t, run_command os_exec self ("molecule test -s " +:+ scenario)
                 (Some (role_path self r)) None (tick w)
               = (Ok t, (subprocess_run os_exec sp (tick w)).2)
               ∧ t = match (os_exec sp (fs w)).1 with
                     | Completed rc out err => (rc, out, err)
                     | TimeoutExpired =>
                         (1%Z, "", "Command timed out after 600 seconds")
                     | OtherException e => (1%Z, "", e)
                     end) as ([[rc o] e] & Hcmd & Ht).
  { unfold run_command. rewrite Hd. unfold subprocess_run, spawn_of. simpl.
    fold sp. destruct (os_exec sp (fs w)) as [[rc out err| |e] tree];
      by eexists. }
  eexists _, _. split; [by eapply run_molecule_unfold|]. simpl.
  destruct ((os_exec sp (fs w)).1) as [rc' out err| |e'];
    injection Ht as -> -> ->.
  - split; [|done]. destruct (Z.eqb_spec rc' 0) as [->|Hn].
    + split; [by eexists _, _|done].
    + split; [done|]. by intros (? & ? & [= ->]).
  - split; [|done]. split; [done|]. by intros (? & ? & ?).
  - split; [|split; [done|by intros ? [= <-]]].
    split; [done|]. by intros (? & ? & ?).
Qed.

Lemma run_molecule_verdict_witness :
  ∃ res w',
    run_molecule exec_hangs demo_wall (demo_self false) "web/nginx" "default"
      (demo_world two_fs) = (Ok res, w')
    ∧ status res = FAILED ∧ output res = ""
    ∧ error res = "Command timed out after 600 seconds".
Proof.
  destruct (run_molecule_verdict exec_hangs demo_wall (demo_self false)
              "web/nginx" "default" (demo_world two_fs) eq_refl)
    as (res & w' & Hrun & _ & Htimeout & _).
  exists res, w'. split; [exact Hrun|]. by apply Htimeout.
Defined.



(** X25. When discovery finds no unit, every stage without a unit returns no
    result and touches nothing, provided the parallelism is positive and the
    pool completes nothing when nothing is submitted: the run then passes
    with zero stages. *)
Theorem run_stage_nothing_discovered os_exec wall completion self stage
    role_arg parallel w :
  truthy role_arg = false →
  (0 < parallel)%Z →
  discover_roles self w = (Ok [], w) →
  completion w [] = [] →
  run_stage os_exec wall completion self stage role_arg parallel w = (Ok [], w).
Proof.
  intros Ht Hp Hdisc Hc.
  assert (∀ s, run_one_stage os_exec wall completion self s role_arg parallel w
               = (Ok [], w)) as Hone.
  { intros s. unfold run_one_stage, thread_pool. rewrite Ht.
    destruct (Z.leb_spec parallel 0) as [|_]; [lia|].
    repeat case_match; munfold; rewrite ?Hdisc, ?Hc; done. }
  unfold run_stage. destruct (String.eqb stage "all"); [|apply Hone].
  do 3 (erewrite all_stages_step; [|apply Hone|done]). done.
Qed.

Lemma run_stage_nothing_discovered_witness :
  run_stage exec_hangs demo_wall last_first (demo_self false) "all" None 4
    (demo_world unmarked_fs) = (Ok [], demo_world unmarked_fs).
Proof.
  by apply (run_stage_nothing_discovered exec_hangs demo_wall last_first
              (demo_self false) "all" None 4 (demo_world unmarked_fs)).
Defined.
